(** * The release-tag consistency checker of BO4E-python

    A shallow embedding of [docs/compatibility/versioning.py]: the [Version]
    value type (parsing, formatting, comparison, bump predicates), the tag
    history reader, the release locator and the bump policy enforcer,
    followed by the properties established about them.

    Conventions of the embedding.
    - Python integers are [Z]; an [Optional[int]] is an [option Z].
    - Python strings are [string]s: sequences of characters with code points
      below 256.  In that range the regular-expression class [\d] is exactly
      the ten characters 0 to 9.
    - A call that may raise returns a [result]; exceptions carry the raise
      site instead of the formatted message.
    - Conversions between integers and decimal strings are subject to the
      interpreter's limit of 4300 digits, beyond which [int] and [str]
      raise [ValueError].
    - The external collaborators (release registry, git, schema diff) are
      the fields of a [World]; every query made to them is recorded in a
      trace, so that "is never consulted" is a statement about that trace. *)

From Stdlib Require Import ZArith List Bool Lia Ascii String.
Import ListNotations.

#[local] Open Scope string_scope.
#[local] Open Scope Z_scope.

(** ** Exceptions and results *)

(** The [ValueError]s of the module, one constructor per raise site. *)
Inductive value_error : Type :=
| PatternMismatch             (* from_string: the pattern does not match *)
| UnexpectedCandidate         (* from_string: candidate, allow_candidate=False *)
| InvalidLiteral              (* int() on something that is not a number *)
| ExceedsDigitLimit           (* int() or str() on more than 4300 digits *)
| NotBothCandidates           (* bumped_candidate *)
| TooFewItems                 (* more_itertools.one on an empty iterable *)
| TooManyItems                (* more_itertools.one on two or more items *)
| TaggedLatestNotOnMain       (* ensure_latest_on_main, is_cur_version_latest *)
| LatestNotOnMain             (* ensure_latest_on_main, otherwise *)
| MajorBumpNotAllowed         (* enforcer, major bump gate *)
| FunctionalBumpWithoutChanges
| ChangesWithoutFunctionalBump.

Inductive exn : Type :=
| ValueError (site : value_error)
| TypeError
| AssertionError
| CalledProcessError          (* a git subprocess exits with an error *)
| GithubException.            (* the release registry query fails *)

Inductive result (A : Type) : Type :=
| Ok (a : A)
| Raise (e : exn).

Arguments Ok {A} a.
Arguments Raise {A} e.

Definition rbind {A B} (r : result A) (k : A -> result B) : result B :=
  match r with
  | Ok a => k a
  | Raise e => Raise e
  end.

(** ** The Version value type *)

Record Version : Type := mkVersion {
  major : Z;
  functional : Z;
  technical : Z;
  candidate : option Z
}.

Definition is_candidate (self : Version) : bool :=
  match candidate self with
  | Some _ => true
  | None => false
  end.

Definition bumped_major (self other : Version) : bool :=
  major self >? major other.

Definition bumped_functional (self other : Version) : bool :=
  negb (bumped_major self other) && (functional self >? functional other).

Definition bumped_technical (self other : Version) : bool :=
  negb (bumped_functional self other) && (technical self >? technical other).

(** Python's [>] between two [Optional[int]] values: comparing with [None]
    raises [TypeError]. *)
Definition optional_gt (x y : option Z) : result bool :=
  match x, y with
  | Some a, Some b => Ok (a >? b)
  | _, _ => Raise TypeError
  end.

(** [not self.bumped_technical(other) and self.candidate > other.candidate]:
    the right operand of [and] is evaluated only when the left one is true. *)
Definition bumped_candidate (self other : Version) : result bool :=
  if is_candidate self || is_candidate other
  then Raise (ValueError NotBothCandidates)
  else if negb (bumped_technical self other)
       then optional_gt (candidate self) (candidate other)
       else Ok false.

(** [Version.__gt__] *)
Definition Version_gt (self other : Version) : bool :=
  (major self >? major other)
  || (functional self >? functional other)
  || (technical self >? technical other)
  || match candidate self with
     | Some c => match candidate other with
                 | None => true
                 | Some c' => c >? c'
                 end
     | None => false
     end.

(** [Version.__eq__] *)
Definition Version_eq (self other : Version) : bool :=
  (major self =? major other)
  && (functional self =? functional other)
  && (technical self =? technical other)
  && Bool.eqb (is_candidate self) (is_candidate other)
  && match candidate self with
     | Some c => match candidate other with
                 | Some c' => c =? c'
                 | None => false
                 end
     | None => true
     end.

(** [functools.total_ordering] derives the three missing comparisons from
    [__gt__] and [__eq__] ([__ne__] is the negation of [__eq__]). *)
Definition Version_lt (self other : Version) : bool :=
  negb (Version_gt self other) && negb (Version_eq self other).

Definition Version_ge (self other : Version) : bool :=
  Version_gt self other || Version_eq self other.

Definition Version_le (self other : Version) : bool :=
  negb (Version_gt self other).

(** The final release and a release candidate of a triple. *)
Definition final (M F T : Z) : Version := mkVersion M F T None.

Definition rc (M F T N : Z) : Version := mkVersion M F T (Some N).

(** ** Decimal numerals: Python's [int(...)] and [str(...)] on integers *)

Definition ord (c : ascii) : Z := Z.of_N (N_of_ascii c).

Definition chr (n : Z) : ascii := ascii_of_N (Z.to_N n).

(** The class [\d] on code points below 256. *)
Definition is_digit (c : ascii) : bool := (48 <=? ord c) && (ord c <=? 57).

Definition digit_value (c : ascii) : Z := ord c - 48.

Definition digit_char (d : Z) : ascii := chr (d + 48).

Fixpoint all_digits (s : string) : bool :=
  match s with
  | EmptyString => true
  | String c r => is_digit c && all_digits r
  end.

Fixpoint int_digits (acc : Z) (s : string) : Z :=
  match s with
  | EmptyString => acc
  | String c r => int_digits (10 * acc + digit_value c) r
  end.

(** [sys.get_int_max_str_digits()], at its default. *)
Definition max_str_digits : Z := 4300.

(** [int(s)] for the strings the module passes to it (groups of digits):
    a run of more than [max_str_digits] digits, leading zeros included, is
    refused with a [ValueError]; anything that is not a run of digits is
    reported as the [ValueError] Python raises on an invalid literal. *)
Definition int (s : string) : result Z :=
  match s with
  | EmptyString => Raise (ValueError InvalidLiteral)
  | String _ _ =>
      if all_digits s then
        if max_str_digits <? Z.of_nat (String.length s)
        then Raise (ValueError ExceedsDigitLimit)
        else Ok (int_digits 0 s)
      else Raise (ValueError InvalidLiteral)
  end.

(** The digits of a non-negative number, most significant first; [fuel]
    bounds the number of digits produced. *)
Fixpoint str_digits (fuel : nat) (n : Z) (acc : string) : string :=
  match fuel with
  | O => acc
  | S fuel' =>
      let acc' := String (digit_char (n mod 10)) acc in
      if n / 10 =? 0 then acc' else str_digits fuel' (n / 10) acc'
  end.

(** A number has no more decimal digits than binary ones. *)
Definition digits_fuel (n : Z) : nat := S (Z.to_nat (Z.log2 n)).

Definition str_nonneg (n : Z) : string := str_digits (digits_fuel n) n "".

(** [str(n)], which is also how an f-string renders an [int]: a number of
    more than [max_str_digits] digits (the sign not counted) is refused
    with a [ValueError]. *)
Definition str (n : Z) : result string :=
  let digits := str_nonneg (Z.abs n) in
  if max_str_digits <? Z.of_nat (String.length digits)
  then Raise (ValueError ExceedsDigitLimit)
  else Ok (if n <? 0 then String "-" digits else digits).

(** ** The version pattern

    [^v(?P<major>\d{6})\.(?P<functional>\d+)\.(?P<technical>\d+)(?:-rc(?P<candidate>\d+))?$]
    used with [fullmatch]. *)

Record Groups : Type := mkGroups {
  group_major : string;
  group_functional : string;
  group_technical : string;
  group_candidate : option string
}.

(** The longest prefix of digits and what follows it. *)
Fixpoint span_digits (s : string) : string * string :=
  match s with
  | EmptyString => ("", "")
  | String c r =>
      if is_digit c
      then let (d, t) := span_digits r in (String c d, t)
      else ("", s)
  end.

Definition nonempty (s : string) : bool :=
  match s with
  | EmptyString => false
  | String _ _ => true
  end.

(** Consume the literal [p] at the head of [s]. *)
Fixpoint expect (p s : string) : option string :=
  match p with
  | EmptyString => Some s
  | String a p' =>
      match s with
      | String b s' => if Ascii.eqb a b then expect p' s' else None
      | EmptyString => None
      end
  end.

Definition obind {A B} (o : option A) (k : A -> option B) : option B :=
  match o with
  | Some a => k a
  | None => None
  end.

(** Every run of digits in the pattern is followed by a character that is
    not a digit (or by the end), so a match must take each run whole; the
    pattern is walked from left to right. *)
Definition version_pattern_fullmatch (version : string) : option Groups :=
  obind (expect "v" version) (fun r0 =>
  let (ma, r1) := span_digits r0 in
  if negb (Nat.eqb (String.length ma) 6) then None else
  obind (expect "." r1) (fun r2 =>
  let (fu, r3) := span_digits r2 in
  if negb (nonempty fu) then None else
  obind (expect "." r3) (fun r4 =>
  let (te, r5) := span_digits r4 in
  if negb (nonempty te) then None else
  match r5 with
  | EmptyString => Some (mkGroups ma fu te None)
  | String _ _ =>
      obind (expect "-rc" r5) (fun r6 =>
      let (ca, r7) := span_digits r6 in
      if negb (nonempty ca) then None else
      match r7 with
      | EmptyString => Some (mkGroups ma fu te (Some ca))
      | String _ _ => None
      end)
  end))).

(** [Version.from_string] *)
Definition from_string (version : string) (allow_candidate : bool)
  : result Version :=
  match version_pattern_fullmatch version with
  | None => Raise (ValueError PatternMismatch)
  | Some m =>
      rbind (int (group_major m)) (fun ma =>
      rbind (int (group_functional m)) (fun fu =>
      rbind (int (group_technical m)) (fun te =>
      rbind (match group_candidate m with
             | Some ca => rbind (int ca) (fun c => Ok (Some c))
             | None => Ok None
             end) (fun ca =>
      let inst := mkVersion ma fu te ca in
      if negb allow_candidate && is_candidate inst
      then Raise (ValueError UnexpectedCandidate)
      else Ok inst))))
  end.

(** [Version.tag_name] (and [__str__]): the fields are rendered from left
    to right, the candidate part last. *)
Definition tag_name (self : Version) : result string :=
  rbind (str (major self)) (fun ma =>
  rbind (str (functional self)) (fun fu =>
  rbind (str (technical self)) (fun te =>
  rbind (match candidate self with
         | Some c => rbind (str c) (fun ca => Ok ("-rc" ++ ca))
         | None => Ok ""
         end) (fun suffix =>
  Ok ("v" ++ ma ++ "." ++ fu ++ "." ++ te ++ suffix))))).

(** ** External collaborators and the trace of queries *)

(** One constructor per kind of query the module makes to the outside. *)
Inductive Call : Type :=
| GithubLatestRelease                     (* get_latest_release() of bo4e/BO4E-python *)
| GitTagMerged (reference : string)       (* git tag --merged <reference> --sort=-creatordate *)
| GitRevParse (reference : string)        (* git rev-parse <reference> *)
| GitBranchContains (commit_id : string)  (* git branch -a --contains <commit_id> *)
| SchemaDiff (behind ahead : string).     (* compare_bo4e_versions(behind, ahead, from_local=True) *)

Definition is_schema_diff (c : Call) : bool :=
  match c with
  | SchemaDiff _ _ => true
  | _ => false
  end.

(** A computation: the queries made, in order, and how it ended. *)
Definition M (A : Type) : Type := (list Call * result A)%type.

Definition ret {A} (a : A) : M A := ([], Ok a).

Definition raise {A} (e : exn) : M A := ([], Raise e).

Definition lift {A} (r : result A) : M A := ([], r).

Definition query {A} (c : Call) (answer : result A) : M A := ([c], answer).

Definition bind {A B} (m : M A) (k : A -> M B) : M B :=
  match m with
  | (t, Ok a) => let (t', r) := k a in ((t ++ t')%list, r)
  | (t, Raise e) => (t, Raise e)
  end.

Notation "x <- m ;; k" := (bind m (fun x => k))
  (at level 61, m at next level, right associativity).

Definition trace {A} (m : M A) : list Call := fst m.

Definition outcome {A} (m : M A) : result A := snd m.

Definition consults_schema_diff {A} (m : M A) : bool :=
  existsb is_schema_diff (trace m).

Section Collaborators.

(** The elements of the change list produced by the schema diff; the module
    only looks at how many there are. *)
Variable Change : Type.

Record World : Type := mkWorld {
  (* tag_name of the release marked latest, given the access token *)
  latest_release_tag : option string -> result string;
  (* output lines of git tag --merged <reference> --sort=-creatordate *)
  git_tag_merged : string -> result (list string);
  (* decoded output of git rev-parse <reference> *)
  git_rev_parse : string -> result string;
  (* output lines of git branch -a --contains <commit_id> *)
  git_branch_contains : string -> result (list string);
  (* compare_bo4e_versions(behind, ahead, gh_token=..., from_local=True) *)
  compare_bo4e_versions : string -> string -> option string -> result (list Change)
}.

Variable w : World.

(** [get_latest_version] *)
Definition get_latest_version (gh_token : option string) : M Version :=
  tag <- query GithubLatestRelease (latest_release_tag w gh_token) ;;
  lift (from_string tag false).

(** *** Tag history reader *)

(** What a run of the generator [get_last_n_tags] produces: the tags it
    yields, in order, then either normal exhaustion (with or without the
    shortfall warning) or an exception. *)
Record Produced : Type := mkProduced {
  yielded : list string;
  finished : result unit;
  shortfall_warning : bool
}.

Definition yield (tag : string) (p : Produced) : Produced :=
  mkProduced (tag :: yielded p) (finished p) (shortfall_warning p).

(** The [for tag in output] loop with its [counter]; falling out of the loop
    reaches the final [if counter < n]. *)
Fixpoint tag_loop (n : Z) (exclude_candidates : bool) (counter : Z)
    (output : list string) : Produced :=
  match output with
  | [] => mkProduced [] (Ok tt) (counter <? n)
  | tag :: rest =>
      if counter >=? n then mkProduced [] (Ok tt) false
      else
        match from_string tag true with
        | Raise e => mkProduced [] (Raise e) false
        | Ok version =>
            if exclude_candidates && is_candidate version
            then tag_loop n exclude_candidates counter rest
            else yield tag (tag_loop n exclude_candidates (counter + 1) rest)
        end
  end.

(** [str.startswith] *)
Definition startswith (s p : string) : bool := String.prefix p s.

Definition history_reference (on_branch : string) : string :=
  match from_string on_branch true with
  | Raise _ => "remotes/origin/" ++ on_branch
  | Ok _ => "tags/" ++ on_branch
  end.

(** [get_last_n_tags]; the keyword defaults are [on_branch="main"] and
    [exclude_candidates=True]. *)
Definition get_last_n_tags (n : Z) (on_branch : string)
    (exclude_candidates : bool) : M Produced :=
  let reference := history_reference on_branch in
  output <- query (GitTagMerged reference) (git_tag_merged w reference) ;;
  let output := if startswith reference "tags/" then tl output else output in
  ret (tag_loop n exclude_candidates 0 output).

(** *** Release locator *)

(** [more_itertools.one] on a generator run: it asks for a first item and
    then for a second one, and looks no further. *)
Definition one (p : Produced) : result string :=
  match yielded p with
  | [] =>
      match finished p with
      | Raise e => Raise e
      | Ok _ => Raise (ValueError TooFewItems)
      end
  | [tag] =>
      match finished p with
      | Raise e => Raise e
      | Ok _ => Ok tag
      end
  | _ :: _ :: _ => Raise (ValueError TooManyItems)
  end.

(** [get_last_version_before] *)
Definition get_last_version_before (version : Version) : M Version :=
  on_branch <- lift (tag_name version) ;;
  p <- get_last_n_tags 1 on_branch true ;;
  tag <- lift (one p) ;;
  lift (from_string tag false).

(** Whitespace for [str.strip] among code points below 256. *)
Definition is_space (c : ascii) : bool :=
  let n := ord c in
  ((9 <=? n) && (n <=? 13)) || ((28 <=? n) && (n <=? 32))
  || (n =? 133) || (n =? 160).

Fixpoint lstrip (s : string) : string :=
  match s with
  | String c r => if is_space c then lstrip r else s
  | EmptyString => ""
  end.

Fixpoint rstrip (s : string) : string :=
  match s with
  | String c r =>
      match rstrip r with
      | EmptyString => if is_space c then "" else String c ""
      | r' => String c r'
      end
  | EmptyString => ""
  end.

Definition strip (s : string) : string := lstrip (rstrip s).

(** [s.lstrip(chars)] for a single character. *)
Fixpoint lstrip_char (x : ascii) (s : string) : string :=
  match s with
  | String c r => if Ascii.eqb c x then lstrip_char x r else s
  | EmptyString => ""
  end.

(** [ensure_latest_on_main] *)
Definition ensure_latest_on_main (latest_version : Version)
    (is_cur_version_latest : bool) : M unit :=
  latest_tag <- lift (tag_name latest_version) ;;
  let reference := "tags/" ++ latest_tag ++ "~0" in
  raw <- query (GitRevParse reference) (git_rev_parse w reference) ;;
  let commit_id := strip raw in
  output <- query (GitBranchContains commit_id) (git_branch_contains w commit_id) ;;
  let branches_containing_commit :=
    map (fun line => lstrip (lstrip_char "*" (strip line))) output in
  if existsb (String.eqb "remotes/origin/main") branches_containing_commit
  then ret tt
  else if is_cur_version_latest
       then raise (ValueError TaggedLatestNotOnMain)
       else raise (ValueError LatestNotOnMain).

(** *** Bump policy enforcer *)

(** Lines 241 to 263 of [compare_work_tree_with_latest_version]: the major
    bump gate, the schema diff and the two consistency checks. *)
Definition check_bump_policy (gh_token : option string)
    (major_bump_allowed : bool) (version_ahead version_behind : Version)
  : M unit :=
  if bumped_major version_ahead version_behind then
    if negb major_bump_allowed
    then raise (ValueError MajorBumpNotAllowed)
    else ret tt
  else
    behind_tag <- lift (tag_name version_behind) ;;
    ahead_tag <- lift (tag_name version_ahead) ;;
    changes <- query (SchemaDiff behind_tag ahead_tag)
                     (compare_bo4e_versions w behind_tag ahead_tag gh_token) ;;
    let functional_changes := (0 <? List.length changes)%nat in
    if negb functional_changes && bumped_functional version_ahead version_behind
    then raise (ValueError FunctionalBumpWithoutChanges)
    else if functional_changes
            && negb (bumped_functional version_ahead version_behind)
         then raise (ValueError ChangesWithoutFunctionalBump)
         else ret tt.

(** [compare_work_tree_with_latest_version] *)
Definition compare_work_tree_with_latest_version (gh_version : string)
    (gh_token : option string) (major_bump_allowed : bool) : M unit :=
  cur_version <- lift (from_string gh_version true) ;;
  latest_version <- get_latest_version gh_token ;;
  let is_cur_version_latest := Version_eq cur_version latest_version in
  _ <- ensure_latest_on_main latest_version is_cur_version_latest ;;
  let version_ahead := cur_version in
  version_behind <- get_last_version_before cur_version ;;
  if negb (Version_gt version_ahead version_behind)
  then
    (* the message of the assertion renders both versions *)
    _ <- lift (tag_name version_ahead) ;;
    _ <- lift (tag_name version_behind) ;;
    raise AssertionError
  else check_bump_policy gh_token major_bump_allowed version_ahead version_behind.

End Collaborators.

Arguments mkWorld {Change}.
Arguments latest_release_tag {Change}.
Arguments git_tag_merged {Change}.
Arguments git_rev_parse {Change}.
Arguments git_branch_contains {Change}.
Arguments compare_bo4e_versions {Change}.
Arguments get_latest_version {Change}.
Arguments get_last_n_tags {Change}.
Arguments get_last_version_before {Change}.
Arguments ensure_latest_on_main {Change}.
Arguments check_bump_policy {Change}.
Arguments compare_work_tree_with_latest_version {Change}.

(** The same world with another schema diff. *)
Definition with_schema_diff {Change : Type} (w : World Change)
    (diff : string -> string -> option string -> result (list Change))
  : World Change :=
  mkWorld (latest_release_tag w) (git_tag_merged w) (git_rev_parse w)
          (git_branch_contains w) diff.

(** ** The version grammar, stated on its own

    What the pattern says, group by group: the letter v, six digits, a dot,
    one or more digits, a dot, one or more digits and optionally -rc
    followed by one or more digits. *)

Definition digit_run (s : string) : Prop :=
  nonempty s = true /\ all_digits s = true.

(** What may follow a run of digits taken whole. *)
Definition non_digit_head (t : string) : Prop :=
  match t with
  | EmptyString => True
  | String c _ => is_digit c = false
  end.

Definition candidate_suffix (ca : option string) : string :=
  match ca with
  | Some d => "-rc" ++ d
  | None => ""
  end.

Definition matches_version_grammar (s : string) (m : Groups) : Prop :=
  all_digits (group_major m) = true
  /\ String.length (group_major m) = 6%nat
  /\ digit_run (group_functional m)
  /\ digit_run (group_technical m)
  /\ match group_candidate m with
     | Some d => digit_run d
     | None => True
     end
  /\ s = "v" ++ group_major m ++ "." ++ group_functional m ++ "."
           ++ group_technical m ++ candidate_suffix (group_candidate m).

(** A numeral is canonical when it has no superfluous leading zero. *)
Definition canonical_numeral (s : string) : bool :=
  match s with
  | String "0" (String _ _) => false
  | _ => true
  end.

Definition canonical_groups (m : Groups) : bool :=
  canonical_numeral (group_major m)
  && canonical_numeral (group_functional m)
  && canonical_numeral (group_technical m)
  && match group_candidate m with
     | Some d => canonical_numeral d
     | None => true
     end.

(** A numeral the interpreter agrees to convert. *)
Definition within_limit (d : string) : bool :=
  Z.of_nat (String.length d) <=? max_str_digits.

Definition groups_within_limit (m : Groups) : bool :=
  within_limit (group_major m)
  && within_limit (group_functional m)
  && within_limit (group_technical m)
  && match group_candidate m with
     | Some d => within_limit d
     | None => true
     end.

(** The string a match was taken from. *)
Definition text_of_groups (m : Groups) : string :=
  "v" ++ group_major m ++ "." ++ group_functional m ++ "."
      ++ group_technical m ++ candidate_suffix (group_candidate m).

(** The numerals of the fields of a version. *)
Definition groups_of_version (v : Version) : Groups :=
  mkGroups (str_nonneg (major v)) (str_nonneg (functional v))
           (str_nonneg (technical v)) (option_map str_nonneg (candidate v)).

Definition nonneg_fields (v : Version) : Prop :=
  0 <= major v
  /\ 0 <= functional v
  /\ 0 <= technical v
  /\ match candidate v with
     | Some c => 0 <= c
     | None => True
     end.

(** The fields a version can have and still be rendered. *)
Definition fields_below_limit (v : Version) : Prop :=
  major v < 10 ^ max_str_digits
  /\ functional v < 10 ^ max_str_digits
  /\ technical v < 10 ^ max_str_digits
  /\ match candidate v with
     | Some c => c < 10 ^ max_str_digits
     | None => True
     end.

(** A numeral of [n] ones. *)
Fixpoint ones (n : nat) : string :=
  match n with
  | O => ""
  | S n' => String "1" (ones n')
  end.

(** The versions with a major of six digits and no negative field: those
    whose tag name, when it can be rendered, is again a version string. *)
Definition printable (v : Version) : Prop :=
  100000 <= major v <= 999999
  /\ 0 <= functional v
  /\ 0 <= technical v
  /\ match candidate v with
     | Some c => 0 <= c
     | None => True
     end.

(** ** A concrete world for the examples

    The registry reports [latest]; git lists [tags] (newest first) for every
    reference, resolves every tag to one commit and finds it on main; the
    schema diff answers [changes]. *)

Definition newline : string := String (ascii_of_nat 10) "".

Definition example_world (latest : string) (tags : list string)
    (changes : list string) : World string :=
  mkWorld (fun _ => Ok latest)
          (fun _ => Ok tags)
          (fun _ => Ok ("4c1d9e2" ++ newline))
          (fun _ => Ok ["* main"; "  remotes/origin/HEAD -> origin/main";
                        "  remotes/origin/main"])
          (fun _ _ _ => Ok changes).

(** Histories used below.  In [history_retagged] the tag v202401.1.1 was
    created after v202401.1.0 on a commit reachable from it, so it is listed
    first among the tags merged into v202401.1.0. *)
Definition history_retagged : list string :=
  ["v202401.1.1"; "v202401.1.0"; "v202401.0.0"].

Definition world_retagged : World string :=
  example_world "v202401.1.1" history_retagged [].

Definition world_functional_rc : World string :=
  example_world "v202401.1.1"
    ["v202401.2.0-rc1"; "v202401.1.1"; "v202401.1.0"] [].

Definition world_major : World string :=
  example_world "v202401.1.1" ["v202501.0.0"; "v202401.1.1"]
    ["Angebot.gueltigkeit removed"].

(** The tag v202401.1.1 is set on a history whose last release is
    v202401.5.0. *)
Definition world_lower_declared : World string :=
  example_world "v202401.5.0" ["v202401.1.1"; "v202401.5.0"; "v202401.4.0"] [].

(** A release candidate v202401.5.0-rc1 is tagged after the final release
    v202401.5.0. *)
Definition world_late_candidate : World string :=
  example_world "v202401.5.0"
    ["v202401.5.0-rc1"; "v202401.5.0"; "v202401.4.0"] [].

Definition world_stale : World string :=
  example_world "v202401.2.0" ["v202401.1.0"; "v202401.2.0"; "v202401.0.0"] [].

(** ** Auxiliary notions for the properties of the module *)

Definition has_candidate (m : Groups) : bool :=
  match group_candidate m with
  | Some _ => true
  | None => false
  end.

(** The version a match denotes: the decimal value of each group. *)
Definition version_of_groups (m : Groups) : Version :=
  mkVersion (int_digits 0 (group_major m))
            (int_digits 0 (group_functional m))
            (int_digits 0 (group_technical m))
            (option_map (int_digits 0) (group_candidate m)).

(** The usual order on (major, functional, technical): the first component
    that differs decides. *)
Definition triple_lex_gt (a b : Version) : bool :=
  (major a >? major b)
  || ((major a =? major b)
      && ((functional a >? functional b)
          || ((functional a =? functional b)
              && (technical a >? technical b)))).

(** Some component of the triple is larger. *)
Definition some_component_increased (a b : Version) : bool :=
  (major a >? major b) || (functional a >? functional b)
  || (technical a >? technical b).

(** A line of the listing that parses as a version and is not filtered
    out as a candidate. *)
Definition qualifies (exclude_candidates : bool) (tag : string) : bool :=
  match from_string tag true with
  | Ok v => negb (exclude_candidates && is_candidate v)
  | Raise _ => false
  end.

Definition parses (tag : string) : Prop :=
  exists v, from_string tag true = Ok v.

Definition parses_as_candidate (tag : string) : Prop :=
  exists v, from_string tag true = Ok v /\ is_candidate v = true.

(** The lines [get_last_n_tags] runs over: the listing, without its first
    line when the reference is a tag. *)
Definition considered (on_branch : string) (output : list string)
  : list string :=
  if startswith (history_reference on_branch) "tags/" then tl output
  else output.

(** The kinds of external queries, and the order in which the enforcer
    makes them. *)
Inductive CallKind : Type :=
| KLatestRelease | KRevParse | KBranchContains | KTagMerged | KSchemaDiff.

Definition call_kind (c : Call) : CallKind :=
  match c with
  | GithubLatestRelease => KLatestRelease
  | GitRevParse _ => KRevParse
  | GitBranchContains _ => KBranchContains
  | GitTagMerged _ => KTagMerged
  | SchemaDiff _ _ => KSchemaDiff
  end.

Definition enforcer_protocol : list CallKind :=
  [KLatestRelease; KRevParse; KBranchContains; KTagMerged; KSchemaDiff].

(** [compare_work_tree_with_latest_version_cli]: every exception of the
    check is logged and turned into [click.exceptions.Exit(1)]; otherwise
    the command returns normally.  The result is the queries made and the
    exit status of the process. *)
Definition compare_work_tree_with_latest_version_cli {Change : Type}
    (w : World Change) (gh_version : string) (gh_token : option string)
    (major_bump_allowed : bool) : list Call * Z :=
  match compare_work_tree_with_latest_version w gh_version gh_token
          major_bump_allowed with
  | (t, Ok _) => (t, 0)
  | (t, Raise _) => (t, 1)
  end.

(** * Properties *)

(** ** Parsing and formatting on examples *)

Example parse_rc3 :
  from_string "v202401.1.2-rc3" true = Ok (mkVersion 202401 1 2 (Some 3)).
Proof. reflexivity. Qed.

Example format_rc3 :
  tag_name (mkVersion 202401 1 2 (Some 3)) = Ok "v202401.1.2-rc3".
Proof. reflexivity. Qed.

Example parse_rc3_final_only :
  from_string "v202401.1.2-rc3" false = Raise (ValueError UnexpectedCandidate).
Proof. reflexivity. Qed.

Example parse_short_major :
  from_string "v20241.1.2" true = Raise (ValueError PatternMismatch).
Proof. reflexivity. Qed.

(** ** Decimal numerals *)

Lemma is_digit_value (c : ascii) :
  is_digit c = true ->
  0 <= digit_value c <= 9 /\ digit_char (digit_value c) = c.
Proof.
  destruct c as [[] [] [] [] [] [] [] []]; try discriminate;
    intros _; (split; [vm_compute; split; discriminate | reflexivity]).
Qed.

Lemma digit_char_value (d : Z) :
  0 <= d <= 9 ->
  is_digit (digit_char d) = true /\ digit_value (digit_char d) = d.
Proof.
  intros H.
  assert (E : d = 0 \/ d = 1 \/ d = 2 \/ d = 3 \/ d = 4 \/ d = 5 \/ d = 6
              \/ d = 7 \/ d = 8 \/ d = 9) by lia.
  repeat (destruct E as [E|E]; [subst d; now split|]).
  subst d; now split.
Qed.

Lemma all_digits_app (s t : string) :
  all_digits (s ++ t) = all_digits s && all_digits t.
Proof.
  induction s as [|c s IH]; simpl; [reflexivity|].
  now rewrite IH, andb_assoc.
Qed.

Lemma int_digits_app (s t : string) (acc : Z) :
  int_digits acc (s ++ t) = int_digits (int_digits acc s) t.
Proof.
  revert acc. induction s as [|c s IH]; intros acc; simpl; [reflexivity|].
  apply IH.
Qed.

Lemma int_digits_nonneg (s : string) (acc : Z) :
  all_digits s = true -> 0 <= acc -> acc <= int_digits acc s.
Proof.
  revert acc. induction s as [|c s IH]; intros acc D A; cbn [int_digits]; [lia|].
  cbn [all_digits] in D. apply andb_prop in D. destruct D as [Dc Ds].
  destruct (is_digit_value c Dc) as [B _].
  specialize (IH (10 * acc + digit_value c) Ds). lia.
Qed.

Lemma append_assoc (s t u : string) : (s ++ t) ++ u = s ++ t ++ u.
Proof. induction s as [|c s IH]; simpl; [reflexivity|]. now rewrite IH. Qed.

Lemma append_empty_r (s : string) : s ++ "" = s.
Proof. induction s as [|c s IH]; simpl; [reflexivity|]. now rewrite IH. Qed.

Lemma length_append (s t : string) :
  String.length (s ++ t) = (String.length s + String.length t)%nat.
Proof. induction s as [|c s IH]; simpl; [reflexivity|]. now rewrite IH. Qed.

(** The accumulator of [str_digits] is a suffix of its result. *)
Lemma str_digits_acc (fuel : nat) (n : Z) (acc : string) :
  str_digits fuel n acc = str_digits fuel n "" ++ acc.
Proof.
  revert n acc. induction fuel as [|f IH]; intros n acc; simpl; [reflexivity|].
  destruct (n / 10 =? 0); [reflexivity|].
  rewrite IH, (IH _ (String _ "")), append_assoc. reflexivity.
Qed.

(** More fuel than binary digits changes nothing. *)
Lemma str_digits_fuel (f : nat) :
  forall (f' : nat) (n : Z) (acc : string),
    0 <= n < 2 ^ (Z.of_nat f + 1) ->
    0 <= n < 2 ^ (Z.of_nat f' + 1) ->
    str_digits (S f) n acc = str_digits (S f') n acc.
Proof.
  induction f as [|g IH]; intros f' n acc B B'.
  - change (2 ^ (Z.of_nat 0 + 1)) with 2 in B.
    assert (E : n / 10 = 0) by (apply Z.div_small; lia).
    simpl. now rewrite E.
  - cbn [str_digits].
    destruct (n / 10 =? 0) eqn:E; [reflexivity|].
    apply Z.eqb_neq in E.
    assert (L : 10 <= n).
    { destruct (Z_lt_le_dec n 10) as [S|S]; [|exact S].
      exfalso. apply E, Z.div_small. lia. }
    destruct f' as [|g'].
    + change (2 ^ (Z.of_nat 0 + 1)) with 2 in B'. lia.
    + assert (P : forall k : nat, n < 2 ^ (Z.of_nat (S k) + 1) ->
                  0 <= n / 10 < 2 ^ (Z.of_nat k + 1)).
      { intros k Hk. split; [apply Z.div_pos; lia|].
        apply Z.div_lt_upper_bound; [lia|].
        replace (Z.of_nat (S k) + 1) with (Z.succ (Z.of_nat k + 1)) in Hk by lia.
        rewrite Z.pow_succ_r in Hk by lia. lia. }
      apply IH; apply P; lia.
Qed.

Lemma digits_fuel_enough (n : Z) :
  0 <= n -> n < 2 ^ (Z.of_nat (Z.to_nat (Z.log2 n)) + 1).
Proof.
  intros H. rewrite Z2Nat.id by apply Z.log2_nonneg.
  destruct (Z.eq_dec n 0) as [->|N]; [reflexivity|].
  change (Z.log2 n + 1) with (Z.succ (Z.log2 n)).
  apply Z.log2_spec. lia.
Qed.

Lemma str_nonneg_fuel (f : nat) (n : Z) :
  0 <= n < 2 ^ (Z.of_nat f + 1) ->
  str_digits (S f) n "" = str_nonneg n.
Proof.
  intros B. unfold str_nonneg, digits_fuel.
  apply str_digits_fuel; [exact B|].
  split; [lia|]. apply digits_fuel_enough. lia.
Qed.

Lemma str_nonneg_small (n : Z) :
  0 <= n < 10 -> str_nonneg n = String (digit_char n) "".
Proof.
  intros B. unfold str_nonneg, digits_fuel. cbn [str_digits].
  rewrite (Z.div_small n 10), (Z.mod_small n 10) by lia. reflexivity.
Qed.

Lemma str_nonneg_step (n : Z) :
  10 <= n ->
  str_nonneg n = str_nonneg (n / 10) ++ String (digit_char (n mod 10)) "".
Proof.
  intros L. unfold str_nonneg at 1. unfold digits_fuel. cbn [str_digits].
  assert (E : (n / 10 =? 0) = false).
  { apply Z.eqb_neq. intros E.
    pose proof (Z.div_mod n 10 ltac:(lia)) as D.
    pose proof (Z.mod_pos_bound n 10 ltac:(lia)). lia. }
  rewrite E.
  pose proof (digits_fuel_enough n ltac:(lia)) as F.
  destruct (Z.to_nat (Z.log2 n)) as [|g] eqn:G.
  - change (2 ^ (Z.of_nat 0 + 1)) with 2 in F. lia.
  - rewrite str_digits_acc. f_equal.
    apply str_nonneg_fuel.
    split; [apply Z.div_pos; lia|].
    apply Z.div_lt_upper_bound; [lia|].
    replace (Z.of_nat (S g) + 1) with (Z.succ (Z.of_nat g + 1)) in F by lia.
    rewrite Z.pow_succ_r in F by lia. lia.
Qed.

Lemma str_nonneg_digits (n : Z) :
  0 <= n ->
  nonempty (str_nonneg n) = true
  /\ all_digits (str_nonneg n) = true
  /\ int_digits 0 (str_nonneg n) = n.
Proof.
  intros H0. generalize H0.
  pattern n. apply Z_lt_induction; [clear n H0|exact H0].
  intros n IH H.
  destruct (Z_lt_le_dec n 10) as [S|L].
  - rewrite str_nonneg_small by lia.
    destruct (digit_char_value n ltac:(lia)) as [D V].
    cbn [nonempty all_digits int_digits]. rewrite D, V. now repeat split.
  - rewrite str_nonneg_step by exact L.
    pose proof (Z.div_mod n 10 ltac:(lia)) as E.
    pose proof (Z.mod_pos_bound n 10 ltac:(lia)) as B.
    destruct (IH (n / 10)) as (N & D & V); [lia..|].
    destruct (digit_char_value (n mod 10) ltac:(lia)) as [Dm Vm].
    rewrite all_digits_app, int_digits_app, D, V.
    cbn [all_digits int_digits]. rewrite Dm, Vm. repeat split; [|lia].
    destruct (str_nonneg (n / 10)); [discriminate N|reflexivity].
Qed.

(** Reading further digits after a positive number appends them to its
    numeral. *)
Lemma str_nonneg_int_digits (d : string) :
  forall acc : Z,
    0 < acc -> all_digits d = true ->
    str_nonneg (int_digits acc d) = str_nonneg acc ++ d.
Proof.
  induction d as [|c r IH]; intros acc A D; cbn [int_digits].
  - now rewrite append_empty_r.
  - cbn [all_digits] in D. apply andb_prop in D. destruct D as [Dc Dr].
    destruct (is_digit_value c Dc) as [B E].
    rewrite IH by (lia || exact Dr).
    rewrite str_nonneg_step by lia.
    replace ((10 * acc + digit_value c) / 10) with acc
      by (apply Z.div_unique with (r := digit_value c); lia).
    replace ((10 * acc + digit_value c) mod 10) with (digit_value c)
      by (apply Z.mod_unique with (q := acc); lia).
    rewrite E, append_assoc. reflexivity.
Qed.

Lemma canonical_numeral_head (c : ascii) (r : string) :
  canonical_numeral (String c r) = true ->
  is_digit c = true ->
  r = "" \/ 0 < digit_value c.
Proof.
  destruct r as [|c' r']; [now left|].
  destruct c as [[] [] [] [] [] [] [] []]; try discriminate;
    intros _ _; right; reflexivity.
Qed.

(** [str_nonneg] undoes [int_digits] on canonical numerals. *)
Lemma str_nonneg_canonical (d : string) :
  nonempty d = true -> all_digits d = true -> canonical_numeral d = true ->
  0 <= int_digits 0 d /\ str_nonneg (int_digits 0 d) = d.
Proof.
  intros N D C.
  split; [apply int_digits_nonneg; [exact D|lia]|].
  destruct d as [|c r]; [discriminate N|].
  cbn [all_digits] in D. apply andb_prop in D. destruct D as [Dc Dr].
  destruct (is_digit_value c Dc) as [B E].
  cbn [int_digits]. change (10 * 0 + digit_value c) with (digit_value c).
  destruct (canonical_numeral_head c r C Dc) as [->|H].
  - cbn [int_digits]. rewrite str_nonneg_small by lia. now rewrite E.
  - rewrite str_nonneg_int_digits by assumption.
    rewrite str_nonneg_small by lia. now rewrite E.
Qed.

(** [int] on a run of digits: the digit limit is its only way to fail. *)
Lemma int_run (d : string) :
  nonempty d = true -> all_digits d = true ->
  int d = if within_limit d then Ok (int_digits 0 d)
          else Raise (ValueError ExceedsDigitLimit).
Proof.
  intros N D. unfold int, within_limit.
  destruct d as [|c r]; [discriminate N|]. rewrite D.
  rewrite (Z.leb_antisym max_str_digits). now destruct (_ <? _).
Qed.

(** [str] on a non-negative number, likewise. *)
Lemma str_run (n : Z) :
  0 <= n ->
  str n = if within_limit (str_nonneg n) then Ok (str_nonneg n)
          else Raise (ValueError ExceedsDigitLimit).
Proof.
  intros H. unfold str, within_limit.
  rewrite Z.abs_eq by exact H.
  replace (n <? 0) with false by (symmetry; apply Z.ltb_ge; exact H).
  cbv zeta. rewrite (Z.leb_antisym max_str_digits). now destruct (_ <? _).
Qed.

Lemma str_six_digits (n : Z) :
  100000 <= n <= 999999 -> String.length (str_nonneg n) = 6%nat.
Proof.
  intros B.
  assert (B1 : 10000 <= n / 10 <= 99999)
    by (Z.to_euclidean_division_equations; lia).
  assert (B2 : 1000 <= n / 10 / 10 <= 9999)
    by (Z.to_euclidean_division_equations; lia).
  assert (B3 : 100 <= n / 10 / 10 / 10 <= 999)
    by (Z.to_euclidean_division_equations; lia).
  assert (B4 : 10 <= n / 10 / 10 / 10 / 10 <= 99)
    by (Z.to_euclidean_division_equations; lia).
  assert (B5 : 1 <= n / 10 / 10 / 10 / 10 / 10 <= 9)
    by (Z.to_euclidean_division_equations; lia).
  rewrite (str_nonneg_step n) by lia.
  rewrite (str_nonneg_step (n / 10)) by lia.
  rewrite (str_nonneg_step (n / 10 / 10)) by lia.
  rewrite (str_nonneg_step (n / 10 / 10 / 10)) by lia.
  rewrite (str_nonneg_step (n / 10 / 10 / 10 / 10)) by lia.
  rewrite str_nonneg_small by lia.
  rewrite !length_append. reflexivity.
Qed.

Lemma int_digits_bound (d : string) :
  forall acc : Z,
    all_digits d = true -> 0 <= acc ->
    int_digits acc d < (acc + 1) * 10 ^ Z.of_nat (String.length d).
Proof.
  induction d as [|c r IH]; intros acc D A.
  - cbn [int_digits String.length]. change (10 ^ Z.of_nat 0) with 1. lia.
  - cbn [all_digits] in D. apply andb_prop in D. destruct D as [Dc Dr].
    destruct (is_digit_value c Dc) as [B _].
    cbn [int_digits String.length].
    specialize (IH (10 * acc + digit_value c) Dr ltac:(lia)).
    rewrite Nat2Z.inj_succ, Z.pow_succ_r by lia.
    assert (P : 0 < 10 ^ Z.of_nat (String.length r))
      by (apply Z.pow_pos_nonneg; lia).
    nia.
Qed.

(** A numeral of six digits denotes a number below a million. *)
Lemma int_six_digits (d : string) (n : Z) :
  String.length d = 6%nat -> int d = Ok n -> 0 <= n <= 999999.
Proof.
  intros L I. unfold int in I.
  destruct d as [|c r] eqn:E; [discriminate L|]. rewrite <- E in *.
  destruct (all_digits d) eqn:D; [|discriminate I].
  destruct (max_str_digits <? Z.of_nat (String.length d)); [discriminate I|].
  assert (N : n = int_digits 0 d) by congruence.
  pose proof (int_digits_bound d 0 D ltac:(lia)) as U.
  pose proof (int_digits_nonneg d 0 D ltac:(lia)) as P.
  rewrite L in U. change ((0 + 1) * 10 ^ Z.of_nat 6) with 1000000 in U.
  lia.
Qed.

(** A number below [10 ^ k] has at most [k] digits, and conversely. *)
Lemma str_nonneg_length (k : nat) :
  forall n : Z,
    0 <= n < 10 ^ Z.of_nat (S k) ->
    (String.length (str_nonneg n) <= S k)%nat.
Proof.
  induction k as [|k IH]; intros n B.
  - change (10 ^ Z.of_nat 1) with 10 in B.
    rewrite str_nonneg_small by exact B. cbn. lia.
  - destruct (Z_lt_le_dec n 10) as [S|L].
    + rewrite str_nonneg_small by lia. cbn. lia.
    + rewrite str_nonneg_step, length_append by exact L.
      cbn [String.length].
      enough ((String.length (str_nonneg (n / 10)) <= S k)%nat) by lia.
      apply IH. split; [apply Z.div_pos; lia|].
      apply Z.div_lt_upper_bound; [lia|].
      rewrite (Nat2Z.inj_succ (S k)), Z.pow_succ_r in B by lia. lia.
Qed.

Lemma str_nonneg_bound (n : Z) :
  0 <= n -> n < 10 ^ Z.of_nat (String.length (str_nonneg n)).
Proof.
  intros H. destruct (str_nonneg_digits n H) as (_ & D & V).
  pose proof (int_digits_bound (str_nonneg n) 0 D ltac:(lia)) as U.
  rewrite V in U. lia.
Qed.

(** The numeral of the value of a run of digits is no longer than the run. *)
Lemma str_nonneg_int_digits_length (d : string) :
  nonempty d = true -> all_digits d = true ->
  (String.length (str_nonneg (int_digits 0 d)) <= String.length d)%nat.
Proof.
  intros N D.
  pose proof (int_digits_bound d 0 D ltac:(lia)) as U.
  pose proof (int_digits_nonneg d 0 D ltac:(lia)) as P.
  destruct d as [|c r]; [discriminate N|].
  cbn [String.length] in *. apply str_nonneg_length. lia.
Qed.

Lemma within_limit_value (d : string) :
  nonempty d = true -> all_digits d = true -> within_limit d = true ->
  within_limit (str_nonneg (int_digits 0 d)) = true.
Proof.
  intros N D W. unfold within_limit in *.
  pose proof (str_nonneg_int_digits_length d N D).
  apply Z.leb_le. apply Z.leb_le in W. lia.
Qed.

(** ** The pattern walker decides the version grammar *)

Lemma expect_spec (p s t : string) :
  expect p s = Some t <-> s = p ++ t.
Proof.
  revert s. induction p as [|a p IH]; intros s; cbn [expect append].
  - split; congruence.
  - destruct s as [|b s]; [split; discriminate|].
    destruct (Ascii.eqb_spec a b) as [->|N].
    + rewrite IH. split; [now intros ->|now intros [= ->]].
    + split; [discriminate|]. intros [= <- _]. now contradiction N.
Qed.

Lemma expect_append (p t : string) : expect p (p ++ t) = Some t.
Proof. now apply expect_spec. Qed.

Lemma span_digits_spec (s d t : string) :
  span_digits s = (d, t) ->
  s = d ++ t /\ all_digits d = true /\ non_digit_head t.
Proof.
  revert d t. induction s as [|c s IH]; intros d t; cbn [span_digits].
  - intros [= <- <-]. now repeat split.
  - destruct (is_digit c) eqn:D.
    + destruct (span_digits s) as [d' t'].
      intros [= <- <-].
      destruct (IH d' t' eq_refl) as (E & A & N).
      cbn [append all_digits]. rewrite D, A, <- E. now repeat split.
    + intros [= <- <-]. now repeat split.
Qed.

Lemma span_digits_append (d t : string) :
  all_digits d = true -> non_digit_head t -> span_digits (d ++ t) = (d, t).
Proof.
  intros A N. induction d as [|c d IH]; cbn [append].
  - destruct t as [|c t]; [reflexivity|]. cbn [span_digits].
    cbn [non_digit_head] in N. now rewrite N.
  - cbn [all_digits] in A. apply andb_prop in A. destruct A as [Ac Ad].
    cbn [span_digits]. now rewrite Ac, (IH Ad).
Qed.

Lemma fullmatch_sound (s : string) (m : Groups) :
  version_pattern_fullmatch s = Some m -> matches_version_grammar s m.
Proof.
  unfold version_pattern_fullmatch, obind.
  destruct (expect "v" s) as [r0|] eqn:E0; [|discriminate].
  apply expect_spec in E0.
  destruct (span_digits r0) as [ma r1] eqn:S0.
  apply span_digits_spec in S0. destruct S0 as (-> & Dma & _).
  destruct (Nat.eqb (String.length ma) 6) eqn:L; [|discriminate].
  apply Nat.eqb_eq in L. cbn [negb].
  destruct (expect "." r1) as [r2|] eqn:E1; [|discriminate].
  apply expect_spec in E1.
  destruct (span_digits r2) as [fu r3] eqn:S1.
  apply span_digits_spec in S1. destruct S1 as (-> & Dfu & _).
  destruct (nonempty fu) eqn:Nfu; [|discriminate]. cbn [negb].
  destruct (expect "." r3) as [r4|] eqn:E2; [|discriminate].
  apply expect_spec in E2.
  destruct (span_digits r4) as [te r5] eqn:S2.
  apply span_digits_spec in S2. destruct S2 as (-> & Dte & _).
  destruct (nonempty te) eqn:Nte; [|discriminate]. cbn [negb].
  subst s r1 r3.
  destruct r5 as [|c5 r5'].
  - intros [= <-]. unfold matches_version_grammar, digit_run; cbn.
    now repeat split.
  - destruct (expect "-rc" (String c5 r5')) as [r6|] eqn:E3; [|discriminate].
    apply expect_spec in E3.
    destruct (span_digits r6) as [ca r7] eqn:S3.
    apply span_digits_spec in S3. destruct S3 as (-> & Dca & _).
    destruct (nonempty ca) eqn:Nca; [|discriminate]. cbn [negb].
    destruct r7; [|discriminate].
    intros [= <-]. rewrite E3, append_empty_r.
    unfold matches_version_grammar, digit_run; cbn.
    now repeat split.
Qed.

Lemma fullmatch_complete (s : string) (m : Groups) :
  matches_version_grammar s m -> version_pattern_fullmatch s = Some m.
Proof.
  destruct m as [ma fu te ca].
  unfold matches_version_grammar, digit_run; cbn [group_major group_functional
    group_technical group_candidate].
  intros (Dma & L & (Nfu & Dfu) & (Nte & Dte) & C & ->).
  unfold version_pattern_fullmatch, obind.
  rewrite expect_append.
  rewrite span_digits_append by (exact Dma || exact I || reflexivity).
  rewrite L. cbn [Nat.eqb negb].
  rewrite expect_append.
  rewrite span_digits_append by (exact Dfu || reflexivity).
  rewrite Nfu. cbn [negb].
  rewrite expect_append.
  destruct ca as [ca|]; cbn [candidate_suffix].
  - destruct C as [Nca Dca].
    rewrite span_digits_append by (exact Dte || reflexivity).
    rewrite Nte. cbn [negb append].
    change (String "-" (String "r" (String "c" ca))) with ("-rc" ++ ca).
    rewrite expect_append.
    rewrite <- (append_empty_r ca) at 1.
    rewrite span_digits_append by (exact Dca || exact I).
    now rewrite Nca.
  - rewrite span_digits_append by (exact Dte || exact I).
    now rewrite Nte.
Qed.

Theorem fullmatch_iff_grammar (s : string) (m : Groups) :
  version_pattern_fullmatch s = Some m <-> matches_version_grammar s m.
Proof. split; [apply fullmatch_sound | apply fullmatch_complete]. Qed.

(** ** Parsing and formatting *)

Lemma grammar_text (s : string) (m : Groups) :
  matches_version_grammar s m -> s = text_of_groups m.
Proof. now intros (_ & _ & _ & _ & _ & E). Qed.

Lemma grammar_runs (s : string) (m : Groups) :
  matches_version_grammar s m ->
  digit_run (group_major m) /\ within_limit (group_major m) = true
  /\ digit_run (group_functional m) /\ digit_run (group_technical m)
  /\ match group_candidate m with
     | Some d => digit_run d
     | None => True
     end.
Proof.
  intros (Dma & L & Rfu & Rte & Rca & _).
  split; [split; [|exact Dma]|].
  - destruct (group_major m); [discriminate L|reflexivity].
  - split; [|exact (conj Rfu (conj Rte Rca))].
    unfold within_limit. now rewrite L.
Qed.

(** What [from_string] does with a string of the grammar: the numbers are
    converted first, then candidates are refused if not allowed. *)
Lemma from_string_matched (s : string) (b : bool) (m : Groups) :
  matches_version_grammar s m ->
  from_string s b
  = if groups_within_limit m
    then if negb b && has_candidate m
         then Raise (ValueError UnexpectedCandidate)
         else Ok (version_of_groups m)
    else Raise (ValueError ExceedsDigitLimit).
Proof.
  intros G. unfold from_string.
  rewrite (fullmatch_complete s m G).
  destruct (grammar_runs s m G) as ([Nma Dma] & Wma & [Nfu Dfu] & [Nte Dte] & Rca).
  rewrite (int_run _ Nma Dma), (int_run _ Nfu Dfu), (int_run _ Nte Dte).
  unfold groups_within_limit, version_of_groups, has_candidate.
  rewrite Wma. cbn [rbind andb].
  destruct (within_limit (group_functional m)); cbn [rbind andb];
    [|reflexivity].
  destruct (within_limit (group_technical m)); cbn [rbind andb];
    [|reflexivity].
  destruct (group_candidate m) as [d|]; cbn [option_map rbind].
  - destruct Rca as [Nca Dca]. rewrite (int_run _ Nca Dca).
    now destruct (within_limit d).
  - reflexivity.
Qed.

Lemma from_string_unmatched (s : string) (b : bool) :
  version_pattern_fullmatch s = None ->
  from_string s b = Raise (ValueError PatternMismatch).
Proof. intros F. unfold from_string. now rewrite F. Qed.

(** A returned version comes from a string of the grammar whose numbers
    are within the digit limit. *)
Lemma from_string_inv (s : string) (b : bool) (v : Version) :
  from_string s b = Ok v ->
  exists m, matches_version_grammar s m
            /\ groups_within_limit m = true
            /\ v = version_of_groups m
            /\ (b = false -> group_candidate m = None).
Proof.
  intros H.
  destruct (version_pattern_fullmatch s) as [m|] eqn:F.
  - apply fullmatch_sound in F. exists m. split; [exact F|].
    rewrite (from_string_matched s b m F) in H.
    destruct (groups_within_limit m); [|discriminate H].
    split; [reflexivity|].
    unfold has_candidate in H.
    destruct b, (group_candidate m) eqn:C; cbn in H; try discriminate H;
      injection H as <-; split; try reflexivity; intros; discriminate.
  - now rewrite (from_string_unmatched s b F) in H.
Qed.

(** What parsing can produce. *)
Lemma from_string_range (s : string) (b : bool) (v : Version) :
  from_string s b = Ok v ->
  0 <= major v <= 999999
  /\ 0 <= functional v
  /\ 0 <= technical v
  /\ match candidate v with
     | Some c => 0 <= c
     | None => True
     end.
Proof.
  intros H. destruct (from_string_inv s b v H) as (m & G & _ & -> & _).
  destruct (grammar_runs s m G) as ([Nma Dma] & _ & [_ Dfu] & [_ Dte] & Rca).
  destruct G as (_ & L & _).
  unfold version_of_groups; cbn [major functional technical candidate].
  pose proof (int_digits_bound _ 0 Dma ltac:(lia)) as U.
  rewrite L in U. change ((0 + 1) * 10 ^ Z.of_nat 6) with 1000000 in U.
  pose proof (int_digits_nonneg _ 0 Dma ltac:(lia)).
  pose proof (int_digits_nonneg _ 0 Dfu ltac:(lia)).
  pose proof (int_digits_nonneg _ 0 Dte ltac:(lia)).
  repeat split; try lia.
  destruct (group_candidate m) as [d|]; cbn [option_map]; [|exact I].
  destruct Rca as [_ Dca]. apply (int_digits_nonneg _ 0 Dca). lia.
Qed.

(** What [tag_name] does with a version without negative fields: the
    digit limit is its only way to fail. *)
Lemma tag_name_nonneg (v : Version) :
  nonneg_fields v ->
  tag_name v
  = if groups_within_limit (groups_of_version v)
    then Ok (text_of_groups (groups_of_version v))
    else Raise (ValueError ExceedsDigitLimit).
Proof.
  intros (Bma & Bfu & Bte & Bca).
  unfold tag_name, groups_within_limit, text_of_groups, groups_of_version;
    cbn [group_major group_functional group_technical group_candidate].
  rewrite (str_run _ Bma), (str_run _ Bfu), (str_run _ Bte).
  destruct (within_limit (str_nonneg (major v))); cbn [rbind andb];
    [|reflexivity].
  destruct (within_limit (str_nonneg (functional v))); cbn [rbind andb];
    [|reflexivity].
  destruct (within_limit (str_nonneg (technical v))); cbn [rbind andb];
    [|reflexivity].
  destruct (candidate v) as [c|]; cbn [option_map candidate_suffix rbind].
  - rewrite (str_run _ Bca). now destruct (within_limit (str_nonneg c)).
  - reflexivity.
Qed.

Lemma printable_nonneg (v : Version) : printable v -> nonneg_fields v.
Proof. intros (B & ?). split; [lia|assumption]. Qed.

Lemma str_nonneg_run (n : Z) : 0 <= n -> digit_run (str_nonneg n).
Proof.
  intros H. destruct (str_nonneg_digits n H) as (N & D & _). now split.
Qed.

Lemma groups_of_version_match (v : Version) :
  printable v ->
  matches_version_grammar (text_of_groups (groups_of_version v))
                          (groups_of_version v).
Proof.
  intros (Bma & Bfu & Bte & Bca).
  unfold matches_version_grammar, groups_of_version;
    cbn [group_major group_functional group_technical group_candidate].
  split; [apply str_nonneg_run; lia|].
  split; [now apply str_six_digits|].
  split; [now apply str_nonneg_run|].
  split; [now apply str_nonneg_run|].
  split; [|reflexivity].
  destruct (candidate v) as [c|]; cbn [option_map];
    [now apply str_nonneg_run|exact I].
Qed.

Lemma version_of_groups_of_version (v : Version) :
  nonneg_fields v -> version_of_groups (groups_of_version v) = v.
Proof.
  intros (Bma & Bfu & Bte & Bca).
  destruct v as [ma fu te ca]; cbn [major functional technical candidate] in *.
  unfold version_of_groups, groups_of_version;
    cbn [group_major group_functional group_technical group_candidate
         major functional technical candidate].
  destruct (str_nonneg_digits ma Bma) as (_ & _ & ->).
  destruct (str_nonneg_digits fu Bfu) as (_ & _ & ->).
  destruct (str_nonneg_digits te Bte) as (_ & _ & ->).
  destruct ca as [c|]; cbn [option_map]; [|reflexivity].
  now destruct (str_nonneg_digits c Bca) as (_ & _ & ->).
Qed.

(** Parsing undoes formatting wherever formatting returns. *)
Lemma from_string_tag_name (v : Version) (name : string) :
  printable v -> tag_name v = Ok name -> from_string name true = Ok v.
Proof.
  intros P T.
  rewrite (tag_name_nonneg v (printable_nonneg v P)) in T.
  destruct (groups_within_limit (groups_of_version v)) eqn:W;
    [|discriminate T].
  injection T as <-.
  rewrite (from_string_matched _ true _ (groups_of_version_match v P)), W.
  cbn [negb andb].
  now rewrite (version_of_groups_of_version v (printable_nonneg v P)).
Qed.

Lemma groups_of_parsed_within (m : Groups) (s : string) :
  matches_version_grammar s m -> groups_within_limit m = true ->
  groups_within_limit (groups_of_version (version_of_groups m)) = true.
Proof.
  intros G W.
  destruct (grammar_runs s m G) as ([Nma Dma] & _ & [Nfu Dfu] & [Nte Dte] & Rca).
  unfold groups_within_limit in *.
  apply andb_prop in W. destruct W as [W Wca].
  apply andb_prop in W. destruct W as [W Wte].
  apply andb_prop in W. destruct W as [Wma Wfu].
  unfold groups_of_version, version_of_groups;
    cbn [group_major group_functional group_technical group_candidate
         major functional technical candidate].
  rewrite !within_limit_value by assumption. cbn [andb].
  destruct (group_candidate m) as [d|]; cbn [option_map]; [|reflexivity].
  destruct Rca as [Nca Dca]. now apply within_limit_value.
Qed.

(** Formatting never fails on a version that was parsed. *)
Lemma parsed_formats (s : string) (b : bool) (v : Version) :
  from_string s b = Ok v ->
  tag_name v = Ok (text_of_groups (groups_of_version v)).
Proof.
  intros H.
  pose proof (from_string_range s b v H) as R.
  destruct (from_string_inv s b v H) as (m & G & W & -> & _).
  rewrite tag_name_nonneg.
  - now rewrite (groups_of_parsed_within m s G W).
  - destruct R as (Rma & ?). split; [lia|assumption].
Qed.

Lemma Version_eq_refl (v : Version) : Version_eq v v = true.
Proof.
  unfold Version_eq, is_candidate.
  rewrite !Z.eqb_refl.
  destruct (candidate v); cbn; [apply Z.eqb_refl|reflexivity].
Qed.

Lemma canonical_text (m : Groups) (s : string) :
  matches_version_grammar s m -> canonical_groups m = true ->
  groups_of_version (version_of_groups m) = m.
Proof.
  intros G C.
  destruct (grammar_runs s m G) as ([Nma Dma] & _ & [Nfu Dfu] & [Nte Dte] & Rca).
  unfold canonical_groups in C.
  apply andb_prop in C. destruct C as [C Cca].
  apply andb_prop in C. destruct C as [C Cte].
  apply andb_prop in C. destruct C as [Cma Cfu].
  destruct m as [ma fu te ca];
    cbn [group_major group_functional group_technical group_candidate] in *.
  unfold groups_of_version, version_of_groups;
    cbn [group_major group_functional group_technical group_candidate
         major functional technical candidate].
  rewrite (proj2 (str_nonneg_canonical ma Nma Dma Cma)).
  rewrite (proj2 (str_nonneg_canonical fu Nfu Dfu Cfu)).
  rewrite (proj2 (str_nonneg_canonical te Nte Dte Cte)).
  destruct ca as [d|]; cbn [option_map]; [|reflexivity].
  destruct Rca as [Nca Dca].
  now rewrite (proj2 (str_nonneg_canonical d Nca Dca Cca)).
Qed.

(** C3, amended: formatting undoes parsing on the version strings whose
    numerals are canonical and have at most 4300 digits, and parsing undoes
    formatting on the parsed versions whose major is at least 100000. *)
Theorem canonical_round_trip :
  (forall (s : string) (m : Groups),
      matches_version_grammar s m -> canonical_groups m = true ->
      groups_within_limit m = true ->
      exists v, from_string s true = Ok v /\ tag_name v = Ok s)
  /\ (forall (s : string) (v : Version),
         from_string s true = Ok v -> 100000 <= major v ->
         exists name, tag_name v = Ok name
                      /\ from_string name true = Ok v
                      /\ Version_eq v v = true).
Proof.
  split.
  - intros s m G C W. exists (version_of_groups m).
    assert (F : from_string s true = Ok (version_of_groups m))
      by (rewrite (from_string_matched s true m G), W; reflexivity).
    split; [exact F|].
    rewrite (parsed_formats s true _ F), (canonical_text m s G C).
    now rewrite <- (grammar_text s m G).
  - intros s v F B.
    exists (text_of_groups (groups_of_version v)).
    pose proof (parsed_formats s true v F) as T.
    split; [exact T|]. split; [|apply Version_eq_refl].
    apply from_string_tag_name; [|exact T].
    destruct (from_string_range s true v F) as (Rma & Rfu & Rte & Rca).
    unfold printable. repeat split; try assumption; lia.
Qed.

(** ** Ordering of versions *)

Lemma Version_gt_same_triple (M F T : Z) (c c' : option Z) :
  Version_gt (mkVersion M F T c) (mkVersion M F T c')
  = match c with
    | Some n => match c' with
                | None => true
                | Some n' => n >? n'
                end
    | None => false
    end.
Proof.
  unfold Version_gt; simpl.
  now rewrite !Z.gtb_ltb, !Z.ltb_irrefl.
Qed.

(** C1, on the code: for every triple and every candidate number the final
    release is NOT greater than the candidate under [__gt__]; it is the
    candidate that compares greater than its own final release.  (Between
    two candidates of one triple the comparison is that of the numbers.) *)
Theorem final_not_gt_candidate (M F T N : Z) :
  Version_gt (final M F T) (rc M F T N) = false
  /\ Version_gt (rc M F T N) (final M F T) = true
  /\ Version_lt (final M F T) (rc M F T N) = true.
Proof.
  unfold Version_lt, final, rc.
  rewrite !Version_gt_same_triple.
  repeat split.
  unfold Version_eq; simpl.
  now rewrite !andb_false_r.
Qed.

Lemma candidates_ordered_by_number (M F T N N' : Z) :
  Version_gt (rc M F T N) (rc M F T N') = (N >? N').
Proof. unfold rc. now rewrite Version_gt_same_triple. Qed.

Lemma Version_eq_not_gt (a b : Version) :
  Version_eq a b = true -> Version_gt a b = false.
Proof.
  destruct a as [M F T c], b as [M' F' T' c'].
  unfold Version_eq, Version_gt; simpl.
  intros H.
  repeat (apply andb_prop in H; destruct H as [H ?]).
  destruct c as [n|], c' as [n'|]; try discriminate;
    repeat (apply orb_false_intro); try reflexivity;
    rewrite Z.gtb_ltb; apply Z.ltb_ge;
    match goal with
    | E : (?x =? ?y) = true |- _ <= _ => apply Z.eqb_eq in E; lia
    end.
Qed.

(** With [<] derived by [total_ordering], exactly one of the three
    comparisons is true for every pair. *)
Lemma Version_trichotomy (a b : Version) :
  (Version_lt a b = true /\ Version_eq a b = false /\ Version_gt a b = false)
  \/ (Version_lt a b = false /\ Version_eq a b = true /\ Version_gt a b = false)
  \/ (Version_lt a b = false /\ Version_eq a b = false /\ Version_gt a b = true).
Proof.
  unfold Version_lt.
  destruct (Version_eq a b) eqn:E.
  - rewrite (Version_eq_not_gt a b E). right; left. now repeat split.
  - destruct (Version_gt a b); [right; right | left]; now repeat split.
Qed.

(** C2, on the code: [__gt__] is not transitive.  v202402.0.0 is greater
    than v202401.1.0 (major), which is greater than v202402.0.1
    (functional), yet v202402.0.0 is not greater than v202402.0.1; the
    first two are even each greater than the other. *)
Theorem Version_gt_not_transitive :
  let a := final 202402 0 0 in
  let b := final 202401 1 0 in
  let c := final 202402 0 1 in
  Version_gt a b = true /\ Version_gt b c = true /\ Version_gt a c = false
  /\ Version_gt b a = true.
Proof. repeat split. Qed.

(** ** Bump predicates *)

(** C5, on the code: [bumped_technical] only looks at [bumped_functional],
    so a major bump that also raises the technical count answers true to
    both [bumped_major] and [bumped_technical]. *)
Theorem major_and_technical_both_bumped :
  let a := final 202402 0 1 in
  let b := final 202401 0 0 in
  Version_gt a b = true
  /\ bumped_major a b = true
  /\ bumped_functional a b = false
  /\ bumped_technical a b = true.
Proof. repeat split. Qed.

Lemma bumped_major_and_technical (a b : Version) :
  bumped_major a b = true ->
  bumped_technical a b = (technical a >? technical b).
Proof.
  intros H. unfold bumped_technical, bumped_functional. now rewrite H.
Qed.

(** C4, on the code: between two candidates [bumped_candidate] always
    raises the [ValueError] its docstring reserves for non-candidates. *)
Theorem bumped_candidate_raises_on_candidates (M F T N M' F' T' N' : Z) :
  bumped_candidate (rc M F T N) (rc M' F' T' N')
  = Raise (ValueError NotBothCandidates).
Proof. reflexivity. Qed.

Lemma bumped_candidate_on_finals (M F T M' F' T' : Z) :
  bumped_candidate (final M F T) (final M' F' T')
  = if bumped_technical (final M F T) (final M' F' T')
    then Ok false
    else Raise TypeError.
Proof.
  unfold bumped_candidate; simpl.
  now destruct (bumped_technical _ _).
Qed.

(** C10: there is no pair of versions on which [bumped_candidate] returns
    [True]; it raises or returns [False]. *)
Theorem bumped_candidate_never_true (a b : Version) :
  bumped_candidate a b <> Ok true.
Proof.
  unfold bumped_candidate, is_candidate.
  destruct (candidate a), (candidate b); simpl; try discriminate.
  destruct (bumped_technical a b); simpl; discriminate.
Qed.

(** ** The monad of traced computations *)

Lemma bind_ok {A B} (t : list Call) (a : A) (k : A -> M B) :
  bind (t, Ok a) k = ((t ++ trace (k a))%list, outcome (k a)).
Proof. unfold bind, trace, outcome. now destruct (k a). Qed.

Lemma bind_raise {A B} (t : list Call) (e : exn) (k : A -> M B) :
  bind (t, Raise e) k = (t, Raise e).
Proof. reflexivity. Qed.

Lemma bind_lift_ok {A B} (a : A) (k : A -> M B) :
  bind (lift (Ok a)) k = k a.
Proof. unfold lift. rewrite bind_ok. simpl. now destruct (k a). Qed.

Lemma trace_bind_lift {A B} (m : M A) (f : A -> result B) :
  trace (bind m (fun a => lift (f a))) = trace m.
Proof.
  destruct m as [t [a|e]]; simpl; [|reflexivity].
  unfold trace; simpl. apply app_nil_r.
Qed.

(** ** Which queries the earlier steps make *)

Section Queries.

Context {Change : Type}.
Variable w : World Change.

Lemma trace_get_latest_version (gh_token : option string) :
  trace (get_latest_version w gh_token) = [GithubLatestRelease].
Proof.
  unfold get_latest_version. rewrite trace_bind_lift. reflexivity.
Qed.

Lemma trace_get_last_n_tags (n : Z) (on_branch : string) (ex : bool) :
  trace (get_last_n_tags w n on_branch ex)
  = [GitTagMerged (history_reference on_branch)].
Proof.
  unfold get_last_n_tags, query.
  destruct (git_tag_merged w _); reflexivity.
Qed.

Lemma trace_get_last_version_before (version : Version) :
  trace (get_last_version_before w version)
  = match tag_name version with
    | Ok name => [GitTagMerged (history_reference name)]
    | Raise _ => []
    end.
Proof.
  unfold get_last_version_before.
  destruct (tag_name version) as [name|e]; [|reflexivity].
  rewrite bind_lift_ok.
  rewrite <- (trace_get_last_n_tags 1 name true).
  destruct (get_last_n_tags w 1 name true) as [t [p|e]]; [|reflexivity].
  rewrite bind_ok.
  destruct (one p) as [tag|e]; [rewrite bind_lift_ok|];
    unfold trace, lift; simpl; apply app_nil_r.
Qed.

Lemma get_last_version_before_no_diff (version : Version) :
  consults_schema_diff (get_last_version_before w version) = false.
Proof.
  unfold consults_schema_diff. rewrite trace_get_last_version_before.
  now destruct (tag_name version).
Qed.

Lemma ensure_latest_on_main_no_diff (latest : Version) (is_latest : bool) :
  consults_schema_diff (ensure_latest_on_main w latest is_latest) = false.
Proof.
  unfold consults_schema_diff, ensure_latest_on_main, query.
  destruct (tag_name latest) as [name|e]; [|reflexivity].
  rewrite bind_lift_ok.
  destruct (git_rev_parse w _) as [raw|e]; [|reflexivity].
  rewrite bind_ok.
  destruct (git_branch_contains w _) as [out|e']; [|reflexivity].
  rewrite bind_ok.
  destruct (existsb (String.eqb _) _); [|destruct is_latest]; reflexivity.
Qed.

End Queries.

(** ** The bump policy enforcer past its earlier gates *)

(** The first five steps make no query to the schema diff. *)
Lemma earlier_no_diff {Change : Type} (w : World Change)
    (gh_token : option string) (cur latest behind : Version) (b : bool)
    (t1 t2 t3 : list Call) :
  get_latest_version w gh_token = (t1, Ok latest) ->
  ensure_latest_on_main w latest b = (t2, Ok tt) ->
  get_last_version_before w cur = (t3, Ok behind) ->
  existsb is_schema_diff (t1 ++ t2 ++ t3) = false.
Proof.
  intros H1 H2 H3. rewrite !existsb_app.
  assert (E1 : t1 = trace (get_latest_version w gh_token)) by now rewrite H1.
  assert (E2 : existsb is_schema_diff t2 = false).
  { pose proof (ensure_latest_on_main_no_diff w latest b) as H.
    unfold consults_schema_diff in H. now rewrite H2 in H. }
  assert (E3 : existsb is_schema_diff t3 = false).
  { pose proof (get_last_version_before_no_diff w cur) as H.
    unfold consults_schema_diff in H. now rewrite H3 in H. }
  rewrite E1, trace_get_latest_version, E2, E3. reflexivity.
Qed.

(** The predecessor, when there is one, was parsed from a tag. *)
Lemma get_last_version_before_parsed {Change : Type} (w : World Change)
    (cur : Version) (t : list Call) (v : Version) :
  get_last_version_before w cur = (t, Ok v) ->
  exists tag, from_string tag false = Ok v.
Proof.
  unfold get_last_version_before.
  destruct (tag_name cur) as [name|e]; [|discriminate].
  rewrite bind_lift_ok.
  destruct (get_last_n_tags w 1 name true) as [t' [p|e]]; [|discriminate].
  rewrite bind_ok.
  destruct (one p) as [tag|e]; [|discriminate].
  rewrite bind_lift_ok. unfold lift, outcome; cbn [snd].
  intros [= _ H]. now exists tag.
Qed.

(** Once the first five steps have succeeded, what is left of the check is
    the assertion and the bump policy. *)
Lemma enforcer_after_gates {Change : Type} (w : World Change)
    (gh_version : string) (gh_token : option string)
    (cur latest behind : Version) (t1 t2 t3 : list Call)
    (major_bump_allowed : bool) :
  from_string gh_version true = Ok cur ->
  get_latest_version w gh_token = (t1, Ok latest) ->
  ensure_latest_on_main w latest (Version_eq cur latest) = (t2, Ok tt) ->
  get_last_version_before w cur = (t3, Ok behind) ->
  compare_work_tree_with_latest_version w gh_version gh_token major_bump_allowed
  = if Version_gt cur behind
    then let m := check_bump_policy w gh_token major_bump_allowed cur behind in
         (((t1 ++ t2 ++ t3) ++ trace m)%list, outcome m)
    else ((t1 ++ t2 ++ t3)%list, Raise AssertionError).
Proof.
  intros H0 H1 H2 H3.
  unfold compare_work_tree_with_latest_version.
  rewrite H0, bind_lift_ok, H1, bind_ok, H2, bind_ok, H3, bind_ok.
  unfold trace, outcome; simpl fst; simpl snd.
  destruct (Version_gt cur behind); simpl negb; cbv iota.
  - rewrite <- !app_assoc. reflexivity.
  - destruct (get_last_version_before_parsed w cur t3 behind H3) as [tag P].
    rewrite (parsed_formats _ _ _ H0), (parsed_formats _ _ _ P).
    cbn [fst snd]. now rewrite !app_nil_r.
Qed.

Section Enforcer.

Context {Change : Type}.
Variable w : World Change.
Variables (gh_version : string) (gh_token : option string).
Variables (cur_version latest_version version_behind : Version).
Variables (t1 t2 t3 : list Call).

(** Steps 1 to 5 succeed: the declared version parses, the latest release
    is found and lies on main, and the predecessor is located. *)
Hypothesis declared_parses :
  from_string gh_version true = Ok cur_version.
Hypothesis latest_found :
  get_latest_version w gh_token = (t1, Ok latest_version).
Hypothesis latest_on_main :
  ensure_latest_on_main w latest_version
    (Version_eq cur_version latest_version) = (t2, Ok tt).
Hypothesis predecessor_located :
  get_last_version_before w cur_version = (t3, Ok version_behind).

(** The assertion of line 234, read with the comparison the code has: once
    the predecessor is located, the check ends in an [AssertionError]
    without consulting the schema diff when [__gt__] answers false, and it
    goes on to the bump policy (lines 241 to 263) when [__gt__] answers
    true. *)
Lemma strict_increase_gate (major_bump_allowed : bool) :
  (Version_gt cur_version version_behind = false ->
     compare_work_tree_with_latest_version w gh_version gh_token
       major_bump_allowed = ((t1 ++ t2 ++ t3)%list, Raise AssertionError)
     /\ consults_schema_diff
          (compare_work_tree_with_latest_version w gh_version gh_token
             major_bump_allowed) = false)
  /\ (Version_gt cur_version version_behind = true ->
        let m := check_bump_policy w gh_token major_bump_allowed
                   cur_version version_behind in
        compare_work_tree_with_latest_version w gh_version gh_token
          major_bump_allowed = (((t1 ++ t2 ++ t3) ++ trace m)%list, outcome m)).
Proof.
  rewrite (enforcer_after_gates w gh_version gh_token cur_version
             latest_version version_behind t1 t2 t3 major_bump_allowed)
    by assumption.
  split; intros E; rewrite E.
  - split; [reflexivity|].
    exact (earlier_no_diff w gh_token cur_version latest_version
             version_behind _ t1 t2 t3 latest_found latest_on_main
             predecessor_located).
  - reflexivity.
Qed.

(** C7: on a major bump the check fails with the major-bump [ValueError]
    when major bumps are not allowed and succeeds when they are; either way
    no query is made to the schema diff, and the result is the same
    whatever the schema diff would have answered. *)
Theorem major_bump_gate (major_bump_allowed : bool) :
  bumped_major cur_version version_behind = true ->
  compare_work_tree_with_latest_version w gh_version gh_token major_bump_allowed
  = ((t1 ++ t2 ++ t3)%list,
     if major_bump_allowed then Ok tt
     else Raise (ValueError MajorBumpNotAllowed))
  /\ consults_schema_diff
       (compare_work_tree_with_latest_version w gh_version gh_token
          major_bump_allowed) = false
  /\ forall diff : string -> string -> option string -> result (list Change),
       compare_work_tree_with_latest_version (with_schema_diff w diff)
         gh_version gh_token major_bump_allowed
       = compare_work_tree_with_latest_version w gh_version gh_token
           major_bump_allowed.
Proof.
  intros B.
  assert (G : Version_gt cur_version version_behind = true).
  { unfold Version_gt. unfold bumped_major in B. now rewrite B. }
  assert (E : forall w' : World Change,
             get_latest_version w' gh_token = (t1, Ok latest_version) ->
             ensure_latest_on_main w' latest_version
               (Version_eq cur_version latest_version) = (t2, Ok tt) ->
             get_last_version_before w' cur_version = (t3, Ok version_behind) ->
             compare_work_tree_with_latest_version w' gh_version gh_token
               major_bump_allowed
             = ((t1 ++ t2 ++ t3)%list,
                if major_bump_allowed then Ok tt
                else Raise (ValueError MajorBumpNotAllowed))).
  { intros w' H1 H2 H3.
    rewrite (enforcer_after_gates w' gh_version gh_token cur_version
               latest_version version_behind t1 t2 t3 major_bump_allowed)
      by assumption.
    rewrite G. unfold check_bump_policy. rewrite B.
    destruct major_bump_allowed; simpl; now rewrite app_nil_r. }
  split; [now apply E|]. split.
  - rewrite E by assumption.
    exact (earlier_no_diff w gh_token cur_version latest_version
             version_behind _ t1 t2 t3 latest_found latest_on_main
             predecessor_located).
  - intros diff. rewrite (E w) by assumption.
    apply E; assumption.
Qed.

(** C6: past the earlier gates and without a major bump, the schema diff
    is asked about the tag names of the predecessor and of the declared
    version, and the outcome is decided by its change list and
    [bumped_functional] alone: a [ValueError] when they disagree, success
    when they agree. *)
Theorem functional_bump_policy (major_bump_allowed : bool)
    (changes : list Change) :
  Version_gt cur_version version_behind = true ->
  bumped_major cur_version version_behind = false ->
  exists behind_tag ahead_tag,
    tag_name version_behind = Ok behind_tag
    /\ tag_name cur_version = Ok ahead_tag
    /\ (compare_bo4e_versions w behind_tag ahead_tag gh_token = Ok changes ->
        outcome (compare_work_tree_with_latest_version w gh_version gh_token
                   major_bump_allowed)
        = match changes, bumped_functional cur_version version_behind with
          | [], true => Raise (ValueError FunctionalBumpWithoutChanges)
          | _ :: _, false => Raise (ValueError ChangesWithoutFunctionalBump)
          | [], false | _ :: _, true => Ok tt
          end).
Proof.
  intros G B.
  destruct (get_last_version_before_parsed w cur_version t3 version_behind
              predecessor_located) as [tag P].
  pose proof (parsed_formats _ _ _ P) as Tb.
  pose proof (parsed_formats _ _ _ declared_parses) as Ta.
  eexists. eexists. split; [exact Tb|]. split; [exact Ta|]. intros D.
  rewrite (enforcer_after_gates w gh_version gh_token cur_version
             latest_version version_behind t1 t2 t3 major_bump_allowed)
    by assumption.
  rewrite G. unfold check_bump_policy, query.
  rewrite B, Tb, bind_lift_ok, Ta, bind_lift_ok, D, bind_ok.
  destruct changes as [|c cs], (bumped_functional cur_version version_behind);
    reflexivity.
Qed.

End Enforcer.

(** ** The enforcer on concrete histories *)

Lemma functional_bump_policy_witness :
  from_string "v202401.2.0-rc1" true = Ok (rc 202401 2 0 1)
  /\ get_last_version_before world_functional_rc (rc 202401 2 0 1)
     = ([GitTagMerged "tags/v202401.2.0-rc1"], Ok (final 202401 1 1))
  /\ outcome (compare_work_tree_with_latest_version world_functional_rc
                "v202401.2.0-rc1" None true)
     = Raise (ValueError FunctionalBumpWithoutChanges).
Proof.
  split; [reflexivity|]. split; [reflexivity|].
  destruct (functional_bump_policy world_functional_rc "v202401.2.0-rc1" None
              (rc 202401 2 0 1) (final 202401 1 1) (final 202401 1 1)
              [GithubLatestRelease]
              [GitRevParse "tags/v202401.1.1~0"; GitBranchContains "4c1d9e2"]
              [GitTagMerged "tags/v202401.2.0-rc1"]
              eq_refl eq_refl eq_refl eq_refl true [] eq_refl eq_refl)
    as (behind_tag & ahead_tag & _ & _ & H).
  apply H. reflexivity.
Defined.

Lemma major_bump_gate_witness :
  bumped_major (final 202501 0 0) (final 202401 1 1) = true
  /\ compare_work_tree_with_latest_version world_major "v202501.0.0" None true
     = ([GithubLatestRelease; GitRevParse "tags/v202401.1.1~0";
         GitBranchContains "4c1d9e2"; GitTagMerged "tags/v202501.0.0"], Ok tt)
  /\ compare_work_tree_with_latest_version world_major "v202501.0.0" None false
     = ([GithubLatestRelease; GitRevParse "tags/v202401.1.1~0";
         GitBranchContains "4c1d9e2"; GitTagMerged "tags/v202501.0.0"],
        Raise (ValueError MajorBumpNotAllowed)).
Proof.
  split; [reflexivity|].
  split;
    apply (major_bump_gate world_major "v202501.0.0" None
             (final 202501 0 0) (final 202401 1 1) (final 202401 1 1)
             [GithubLatestRelease]
             [GitRevParse "tags/v202401.1.1~0"; GitBranchContains "4c1d9e2"]
             [GitTagMerged "tags/v202501.0.0"]
             eq_refl eq_refl eq_refl eq_refl);
    reflexivity.
Defined.

Lemma strict_increase_gate_witness :
  get_last_version_before world_stale (final 202401 1 0)
  = ([GitTagMerged "tags/v202401.1.0"], Ok (final 202401 2 0))
  /\ Version_gt (final 202401 1 0) (final 202401 2 0) = false
  /\ compare_work_tree_with_latest_version world_stale "v202401.1.0" None true
     = ([GithubLatestRelease; GitRevParse "tags/v202401.2.0~0";
         GitBranchContains "4c1d9e2"; GitTagMerged "tags/v202401.1.0"],
        Raise AssertionError).
Proof.
  split; [reflexivity|]. split; [reflexivity|].
  apply (strict_increase_gate world_stale "v202401.1.0" None
           (final 202401 1 0) (final 202401 2 0) (final 202401 2 0)
           [GithubLatestRelease]
           [GitRevParse "tags/v202401.2.0~0"; GitBranchContains "4c1d9e2"]
           [GitTagMerged "tags/v202401.1.0"]
           eq_refl eq_refl eq_refl eq_refl true).
  reflexivity.
Defined.

(** A release candidate always compares greater than a final release. *)
Lemma candidate_gt_final (cur behind : Version) :
  is_candidate cur = true -> is_candidate behind = false ->
  Version_gt cur behind = true.
Proof.
  unfold Version_gt, is_candidate.
  destruct (candidate cur), (candidate behind); try discriminate.
  intros _ _. now rewrite !orb_true_r.
Qed.

(** C8, on the code: the assertion uses [__gt__], which answers true as
    soon as one component is larger.  The declared v202401.1.1 is below its
    predecessor v202401.5.0 in the order of versions, yet the assertion
    lets it through and the whole check passes; a release candidate tagged
    after the final release of its own triple passes as well. *)
Theorem lower_version_passes_gate :
  (triple_lex_gt (final 202401 1 1) (final 202401 5 0) = false
   /\ triple_lex_gt (final 202401 5 0) (final 202401 1 1) = true
   /\ get_last_version_before world_lower_declared (final 202401 1 1)
      = ([GitTagMerged "tags/v202401.1.1"], Ok (final 202401 5 0))
   /\ compare_work_tree_with_latest_version world_lower_declared
        "v202401.1.1" None true
      = ([GithubLatestRelease; GitRevParse "tags/v202401.5.0~0";
          GitBranchContains "4c1d9e2"; GitTagMerged "tags/v202401.1.1";
          SchemaDiff "v202401.5.0" "v202401.1.1"], Ok tt))
  /\ (get_last_version_before world_late_candidate (rc 202401 5 0 1)
      = ([GitTagMerged "tags/v202401.5.0-rc1"], Ok (final 202401 5 0))
      /\ compare_work_tree_with_latest_version world_late_candidate
           "v202401.5.0-rc1" None true
         = ([GithubLatestRelease; GitRevParse "tags/v202401.5.0~0";
             GitBranchContains "4c1d9e2";
             GitTagMerged "tags/v202401.5.0-rc1";
             SchemaDiff "v202401.5.0" "v202401.5.0-rc1"], Ok tt)).
Proof. repeat split. Qed.
(** ** Parsing and formatting on concrete strings *)

Lemma canonical_round_trip_witness :
  (exists v, from_string "v202401.1.2-rc3" true = Ok v
             /\ tag_name v = Ok "v202401.1.2-rc3")
  /\ exists name, tag_name (rc 202401 1 2 3) = Ok name
                  /\ from_string name true = Ok (rc 202401 1 2 3)
                  /\ Version_eq (rc 202401 1 2 3) (rc 202401 1 2 3) = true.
Proof.
  destruct canonical_round_trip as [A B]. split.
  - apply (A "v202401.1.2-rc3" (mkGroups "202401" "1" "2" (Some "3")));
      [unfold matches_version_grammar, digit_run; cbn; now repeat split
      | reflexivity | reflexivity].
  - apply (B "v202401.1.2-rc3" (rc 202401 1 2 3)); [reflexivity|cbn; lia].
Defined.

(** C3, as stated, fails: a functional count written 01 is formatted back
    as 1, and a version parsed from a major of 000001 is formatted as v1.0.0,
    which no longer parses. *)
Lemma round_trip_fails_on_leading_zeros :
  (matches_version_grammar "v202401.01.2" (mkGroups "202401" "01" "2" None)
   /\ from_string "v202401.01.2" true = Ok (final 202401 1 2)
   /\ tag_name (final 202401 1 2) = Ok "v202401.1.2"
   /\ "v202401.1.2" <> "v202401.01.2")
  /\ (from_string "v000001.0.0" true = Ok (final 1 0 0)
      /\ tag_name (final 1 0 0) = Ok "v1.0.0"
      /\ from_string "v1.0.0" true = Raise (ValueError PatternMismatch)).
Proof.
  repeat split; try discriminate.
Qed.

(** Nor is every string of the grammar parsed: a number of more than 4300
    digits is refused by [int], whether written canonically or not. *)
Lemma long_numerals_are_refused :
  let m := mkGroups "202401" (ones 4301) "0" None in
  matches_version_grammar ("v202401." ++ ones 4301 ++ ".0") m
  /\ canonical_groups m = true
  /\ groups_within_limit m = false
  /\ from_string ("v202401." ++ ones 4301 ++ ".0") true
     = Raise (ValueError ExceedsDigitLimit).
Proof.
  cbv zeta. unfold matches_version_grammar, digit_run.
  repeat split; vm_compute; reflexivity.
Qed.

(** ** The tag history reader and the reference tag *)

Lemma tag_loop_yields_from_output (n : Z) (ex : bool) (output : list string) :
  forall (counter : Z) (tag : string),
    In tag (yielded (tag_loop n ex counter output)) -> In tag output.
Proof.
  induction output as [|t rest IH]; intros counter tag; cbn [tag_loop].
  - intros [].
  - destruct (counter >=? n); [intros []|].
    destruct (from_string t true) as [v|e]; [|intros []].
    destruct (ex && is_candidate v).
    + intros H. right. exact (IH _ _ H).
    + cbn [yield yielded]. intros [<-|H]; [now left|right; exact (IH _ _ H)].
Qed.

(** The reader drops the first line git reports, whatever it is: the
    reference tag is left out when it is that first line and occurs nowhere
    else in the listing. *)
Lemma reference_skipped_when_newest {Change : Type} (w : World Change)
    (n : Z) (on_branch : string) (ex : bool) (v : Version)
    (rest : list string) :
  from_string on_branch true = Ok v ->
  git_tag_merged w ("tags/" ++ on_branch) = Ok (on_branch :: rest) ->
  ~ In on_branch rest ->
  exists p, get_last_n_tags w n on_branch ex
            = ([GitTagMerged ("tags/" ++ on_branch)], Ok p)
            /\ ~ In on_branch (yielded p).
Proof.
  intros P G N.
  unfold get_last_n_tags, history_reference. rewrite P, G.
  unfold query. rewrite bind_ok.
  replace (startswith ("tags/" ++ on_branch) "tags/") with true
    by (now destruct on_branch).
  cbn [tl ret trace outcome fst snd].
  eexists. split; [reflexivity|].
  intros H. apply N. exact (tag_loop_yields_from_output _ _ _ _ _ H).
Qed.

Lemma reference_skipped_when_newest_witness :
  exists p, get_last_n_tags world_functional_rc 2 "v202401.2.0-rc1" false
            = ([GitTagMerged "tags/v202401.2.0-rc1"], Ok p)
            /\ ~ In "v202401.2.0-rc1" (yielded p).
Proof.
  apply (reference_skipped_when_newest world_functional_rc 2
           "v202401.2.0-rc1" false (rc 202401 2 0 1)
           ["v202401.1.1"; "v202401.1.0"] eq_refl eq_refl).
  cbn. intros [H|[H|[]]]; discriminate H.
Defined.

(** C9, on the code: when another tag reachable from the reference was
    created after it, the reference is not the first line of the listing;
    the reader then drops that other tag and yields the reference tag
    itself, which [get_last_version_before] returns as the predecessor. *)
Theorem reference_tag_yielded_when_not_newest :
  from_string "v202401.1.0" true = Ok (final 202401 1 0)
  /\ git_tag_merged world_retagged "tags/v202401.1.0" = Ok history_retagged
  /\ get_last_n_tags world_retagged 1 "v202401.1.0" true
     = ([GitTagMerged "tags/v202401.1.0"],
        Ok (mkProduced ["v202401.1.0"] (Ok tt) false))
  /\ get_last_version_before world_retagged (final 202401 1 0)
     = ([GitTagMerged "tags/v202401.1.0"], Ok (final 202401 1 0)).
Proof. repeat split. Qed.

(** * Further properties of the module *)

(** ** What [from_string] returns and raises *)

(** Every failure of [from_string], with its cause. *)
Lemma from_string_raises (s : string) (b : bool) (e : exn) :
  from_string s b = Raise e ->
  (e = ValueError PatternMismatch
   /\ forall m, ~ matches_version_grammar s m)
  \/ (e = ValueError ExceedsDigitLimit
      /\ exists m, matches_version_grammar s m
                   /\ groups_within_limit m = false)
  \/ (e = ValueError UnexpectedCandidate
      /\ b = false
      /\ exists m, matches_version_grammar s m
                   /\ groups_within_limit m = true
                   /\ has_candidate m = true).
Proof.
  intros H.
  destruct (version_pattern_fullmatch s) as [m|] eqn:F.
  - apply fullmatch_sound in F.
    rewrite (from_string_matched s b m F) in H.
    destruct (groups_within_limit m) eqn:W.
    + destruct b, (has_candidate m) eqn:C; cbn in H; try discriminate H.
      injection H as <-. right; right. repeat split. now exists m.
    + injection H as <-. right; left. split; [reflexivity|]. now exists m.
  - rewrite (from_string_unmatched s b F) in H. injection H as <-.
    left. split; [reflexivity|].
    intros m G. apply fullmatch_complete in G. congruence.
Qed.

Lemma grammar_unique (s : string) (m m' : Groups) :
  matches_version_grammar s m -> matches_version_grammar s m' -> m = m'.
Proof.
  intros G G'. apply fullmatch_complete in G, G'. congruence.
Qed.

(** X1: [from_string] raises three [ValueError]s and nothing else: the
    pattern mismatch exactly on the strings outside the grammar; the
    digit-limit error of [int] exactly on the strings of the grammar with a
    number of more than 4300 digits; the candidate error exactly on the
    remaining strings that have a candidate part, when candidates are not
    allowed. *)
Theorem from_string_errors (s : string) (b : bool) :
  (from_string s b = Raise (ValueError PatternMismatch)
   <-> forall m, ~ matches_version_grammar s m)
  /\ (from_string s b = Raise (ValueError ExceedsDigitLimit)
      <-> exists m, matches_version_grammar s m
                    /\ groups_within_limit m = false)
  /\ (from_string s b = Raise (ValueError UnexpectedCandidate)
      <-> b = false
          /\ exists m, matches_version_grammar s m
                       /\ groups_within_limit m = true
                       /\ has_candidate m = true)
  /\ forall e, from_string s b = Raise e ->
               e = ValueError PatternMismatch
               \/ e = ValueError ExceedsDigitLimit
               \/ e = ValueError UnexpectedCandidate.
Proof.
  split; [|split; [|split]].
  - split.
    + intros H.
      destruct (from_string_raises s b _ H)
        as [[_ N]|[[E _]|(E & _)]]; [exact N|discriminate E..].
    + intros N. apply from_string_unmatched.
      destruct (version_pattern_fullmatch s) as [m|] eqn:F; [|reflexivity].
      apply fullmatch_sound in F. now contradiction (N m).
  - split.
    + intros H.
      destruct (from_string_raises s b _ H)
        as [[E _]|[[_ X]|(E & _)]]; [discriminate E|exact X|discriminate E].
    + intros (m & G & W). now rewrite (from_string_matched s b m G), W.
  - split.
    + intros H.
      destruct (from_string_raises s b _ H)
        as [[E _]|[[E _]|(_ & B & X)]]; [discriminate E..|now split].
    + intros (-> & m & G & W & C).
      now rewrite (from_string_matched s false m G), W, C.
  - intros e H.
    destruct (from_string_raises s b e H) as [[E _]|[[E _]|(E & _)]];
      subst e; tauto.
Qed.

Lemma from_string_errors_witness :
  from_string ("v202401." ++ ones 4301 ++ ".0") true
  = Raise (ValueError ExceedsDigitLimit).
Proof.
  apply (proj2 (proj1 (proj2 (from_string_errors
                                ("v202401." ++ ones 4301 ++ ".0") true)))).
  exists (mkGroups "202401" (ones 4301) "0" None).
  unfold matches_version_grammar, digit_run.
  repeat split; vm_compute; reflexivity.
Defined.

(** X2: a parsed version holds the decimal values of the groups of its string;
    its major is below a million and no field is negative.  Without
    [allow_candidate] the string has no candidate part. *)
Theorem from_string_fields (s : string) (b : bool) (v : Version) :
  from_string s b = Ok v ->
  (exists m, matches_version_grammar s m
             /\ v = version_of_groups m
             /\ (b = false -> group_candidate m = None))
  /\ 0 <= major v <= 999999
  /\ 0 <= functional v
  /\ 0 <= technical v
  /\ match candidate v with
     | Some c => 0 <= c
     | None => True
     end.
Proof.
  intros H. split; [|exact (from_string_range s b v H)].
  destruct (from_string_inv s b v H) as (m & G & _ & E & C).
  now exists m.
Qed.

Lemma from_string_fields_witness :
  0 <= major (rc 202401 1 2 3) <= 999999.
Proof.
  exact (proj1 (proj2 (from_string_fields "v202401.1.2-rc3" true
                         (rc 202401 1 2 3) eq_refl))).
Defined.

Lemma from_string_modes (s : string) (v : Version) :
  (from_string s false = Ok v
   <-> from_string s true = Ok v /\ is_candidate v = false)
  /\ (from_string s true = Ok v -> is_candidate v = true ->
      from_string s false = Raise (ValueError UnexpectedCandidate)).
Proof.
  destruct (version_pattern_fullmatch s) as [m|] eqn:F.
  - apply fullmatch_sound in F.
    rewrite !(from_string_matched s _ m F). cbn [negb andb].
    assert (C : is_candidate (version_of_groups m) = has_candidate m).
    { unfold is_candidate, version_of_groups, has_candidate; cbn.
      now destruct (group_candidate m). }
    destruct (groups_within_limit m).
    + destruct (has_candidate m) eqn:Hc.
      * split; [split|reflexivity].
        -- discriminate.
        -- intros [[= <-] E]. congruence.
      * split; [split|].
        -- intros [= <-]. now split.
        -- now intros [E _].
        -- intros [= <-] E. congruence.
    + split; [split|]; try discriminate. now intros [E _].
  - rewrite !(from_string_unmatched s _ F).
    split; [split|]; try discriminate. now intros [E _].
Qed.

(** X3: the two modes of [from_string] agree on final releases; a candidate
    accepted with [allow_candidate] is the one rejected without it. *)
Theorem from_string_allow_candidate (s : string) (v : Version) :
  (from_string s false = Ok v
   <-> from_string s true = Ok v /\ is_candidate v = false)
  /\ (from_string s true = Ok v -> is_candidate v = true ->
      from_string s false = Raise (ValueError UnexpectedCandidate)).
Proof. exact (from_string_modes s v). Qed.

Lemma from_string_allow_candidate_witness :
  from_string "v202401.1.2-rc3" false = Raise (ValueError UnexpectedCandidate).
Proof.
  exact (proj2 (from_string_allow_candidate "v202401.1.2-rc3"
                  (rc 202401 1 2 3)) eq_refl eq_refl).
Defined.


(** ** What [tag_name] produces *)

Lemma canonical_numeral_nonzero_head (c : ascii) (r : string) :
  c <> "0"%char -> canonical_numeral (String c r) = true.
Proof.
  intros N.
  destruct c as [[] [] [] [] [] [] [] []]; try reflexivity.
  now contradiction N.
Qed.

Lemma str_nonneg_head (n : Z) :
  1 <= n -> exists c r, str_nonneg n = String c r /\ c <> "0"%char.
Proof.
  intros H1. generalize H1.
  pattern n. apply Z_lt_induction; [clear n H1|lia].
  intros n IH H.
  destruct (Z_lt_le_dec n 10) as [S|L].
  - rewrite str_nonneg_small by lia.
    exists (digit_char n), "". split; [reflexivity|].
    assert (E : n = 1 \/ n = 2 \/ n = 3 \/ n = 4 \/ n = 5 \/ n = 6
                \/ n = 7 \/ n = 8 \/ n = 9) by lia.
    repeat (destruct E as [E|E]; [subst n; discriminate|]).
    subst n; discriminate.
  - rewrite str_nonneg_step by exact L.
    destruct (IH (n / 10)) as (c & r & E & N).
    + split; [apply Z.div_pos; lia|apply Z.div_lt; lia].
    + apply Z.div_le_lower_bound; lia.
    + rewrite E. cbn [append]. eauto.
Qed.

Lemma str_nonneg_is_canonical (n : Z) :
  0 <= n -> canonical_numeral (str_nonneg n) = true.
Proof.
  intros H.
  destruct (Z.eq_dec n 0) as [->|N]; [reflexivity|].
  destruct (str_nonneg_head n ltac:(lia)) as (c & r & -> & Nc).
  now apply canonical_numeral_nonzero_head.
Qed.

Lemma groups_of_version_canonical (v : Version) :
  nonneg_fields v -> canonical_groups (groups_of_version v) = true.
Proof.
  intros (Bma & Bfu & Bte & Bca).
  unfold canonical_groups, groups_of_version;
    cbn [group_major group_functional group_technical group_candidate].
  rewrite !str_nonneg_is_canonical by assumption.
  destruct (candidate v) as [c|]; cbn [option_map andb];
    [now apply str_nonneg_is_canonical|reflexivity].
Qed.

(** A number is rendered within the digit limit exactly when it is below
    ten to the power of that limit. *)
Lemma within_limit_iff (n : Z) :
  0 <= n ->
  (within_limit (str_nonneg n) = true <-> n < 10 ^ max_str_digits).
Proof.
  intros H. unfold within_limit. rewrite Z.leb_le. split.
  - intros L. pose proof (str_nonneg_bound n H) as B.
    eapply Z.lt_le_trans; [exact B|].
    apply Z.pow_le_mono_r; [reflexivity|exact L].
  - intros B.
    pose proof (str_nonneg_length 4299 n) as L.
    change (Z.of_nat 4300) with max_str_digits in L.
    specialize (L (conj H B)).
    change max_str_digits with (Z.of_nat 4300). apply Nat2Z.inj_le. exact L.
Qed.

Lemma groups_within_limit_iff (v : Version) :
  nonneg_fields v ->
  (groups_within_limit (groups_of_version v) = true <-> fields_below_limit v).
Proof.
  intros (Bma & Bfu & Bte & Bca).
  unfold groups_within_limit, fields_below_limit, groups_of_version;
    cbn [group_major group_functional group_technical group_candidate].
  rewrite !andb_true_iff.
  rewrite (within_limit_iff _ Bma), (within_limit_iff _ Bfu),
    (within_limit_iff _ Bte).
  destruct (candidate v) as [c|]; cbn [option_map].
  - rewrite (within_limit_iff _ Bca). tauto.
  - tauto.
Qed.

(** X4: for a version with a six-digit major and no negative field,
    [tag_name] returns exactly when every field is below ten to the power
    4300, and raises the digit-limit [ValueError] otherwise; the tag name
    it returns is a version string in canonical form: it matches the
    grammar, none of its numbers has a superfluous leading zero, and its
    groups denote the fields of the version. *)
Theorem tag_name_canonical (v : Version) :
  printable v ->
  (fields_below_limit v ->
   exists name m, tag_name v = Ok name
                  /\ matches_version_grammar name m
                  /\ canonical_groups m = true
                  /\ groups_within_limit m = true
                  /\ version_of_groups m = v)
  /\ (~ fields_below_limit v ->
      tag_name v = Raise (ValueError ExceedsDigitLimit)).
Proof.
  intros P. pose proof (printable_nonneg v P) as N.
  rewrite (tag_name_nonneg v N).
  pose proof (groups_within_limit_iff v N) as W.
  destruct (groups_within_limit (groups_of_version v)) eqn:E.
  - split; [intros _|intros B; contradiction B; now apply W].
    exists (text_of_groups (groups_of_version v)), (groups_of_version v).
    split; [reflexivity|].
    split; [now apply groups_of_version_match|].
    split; [now apply groups_of_version_canonical|].
    split; [exact E|now apply version_of_groups_of_version].
  - split; [intros B; apply W in B; discriminate B|reflexivity].
Qed.

Lemma tag_name_canonical_witness :
  exists name m, tag_name (rc 202401 1 2 3) = Ok name
                 /\ matches_version_grammar name m
                 /\ canonical_groups m = true
                 /\ groups_within_limit m = true
                 /\ version_of_groups m = rc 202401 1 2 3.
Proof.
  apply (tag_name_canonical (rc 202401 1 2 3)).
  - unfold printable; cbn; lia.
  - apply (groups_within_limit_iff (rc 202401 1 2 3)).
    + unfold nonneg_fields; cbn; lia.
    + reflexivity.
Defined.

(** X5: two versions with a six-digit major and no negative field that
    have the same tag name are the same version. *)
Theorem tag_name_injective (v v' : Version) (name : string) :
  printable v -> printable v' ->
  tag_name v = Ok name -> tag_name v' = Ok name -> v = v'.
Proof.
  intros P P' T T'.
  pose proof (from_string_tag_name v name P T) as F.
  pose proof (from_string_tag_name v' name P' T') as F'.
  congruence.
Qed.

Lemma tag_name_injective_witness :
  rc 202401 1 2 3 = rc 202401 1 2 3.
Proof.
  apply (tag_name_injective (rc 202401 1 2 3) (rc 202401 1 2 3)
           "v202401.1.2-rc3");
    [unfold printable; cbn; lia..|reflexivity|reflexivity].
Defined.
(** ** Equality and order of versions *)

Lemma Version_eq_true_iff (a b : Version) :
  Version_eq a b = true <-> a = b.
Proof.
  split.
  - destruct a as [M F T c], b as [M' F' T' c'].
    unfold Version_eq, is_candidate; cbn.
    intros H.
    repeat (apply andb_prop in H; destruct H as [H ?]).
    apply Z.eqb_eq in H.
    repeat match goal with
           | E : (_ =? _) = true |- _ => apply Z.eqb_eq in E
           end.
    destruct c as [n|], c' as [n'|]; try discriminate; subst;
      repeat match goal with
             | E : (_ =? _) = true |- _ => apply Z.eqb_eq in E; subst
             end; reflexivity.
  - intros <-. apply Version_eq_refl.
Qed.

(** X6: [__eq__] is equality of the four fields. *)
Theorem Version_eq_iff (a b : Version) :
  Version_eq a b = true <-> a = b.
Proof. exact (Version_eq_true_iff a b). Qed.

Lemma Version_eq_iff_witness :
  rc 202401 1 2 3 = rc 202401 1 2 3.
Proof.
  exact (proj1 (Version_eq_iff (rc 202401 1 2 3) (rc 202401 1 2 3)) eq_refl).
Defined.

(** X7: no version is greater than itself or than a version equal to it,
    and of [a < b], [a == b], [a > b] exactly one is true. *)
Theorem Version_comparisons_exclusive (a b : Version) :
  Version_gt a a = false
  /\ (Version_eq a b = true ->
      Version_gt a b = false /\ Version_gt b a = false)
  /\ xorb (Version_lt a b) (xorb (Version_eq a b) (Version_gt a b)) = true
  /\ Version_lt a b && Version_eq a b = false
  /\ Version_lt a b && Version_gt a b = false
  /\ Version_eq a b && Version_gt a b = false.
Proof.
  split; [apply Version_eq_not_gt, Version_eq_refl|].
  split.
  - intros E. split; [now apply Version_eq_not_gt|].
    apply Version_eq_true_iff in E. subst b.
    apply Version_eq_not_gt, Version_eq_refl.
  - destruct (Version_trichotomy a b) as [(L & E & G)|[(L & E & G)|(L & E & G)]];
      rewrite L, E, G; now repeat split.
Qed.

Lemma Version_comparisons_exclusive_witness :
  Version_gt (rc 202401 1 2 3) (rc 202401 1 2 3) = false.
Proof.
  exact (proj1 (proj1 (proj2 (Version_comparisons_exclusive
                                (rc 202401 1 2 3) (rc 202401 1 2 3)))
                  eq_refl)).
Defined.

(** X8: a version whose (major, functional, technical) is larger in the
    usual lexicographic order is greater under [__gt__], whatever the
    candidate parts: the comparison never misses a real increase. *)
Theorem Version_gt_of_lex (a b : Version) :
  triple_lex_gt a b = true -> Version_gt a b = true.
Proof.
  unfold triple_lex_gt, Version_gt. intros H.
  destruct (major a >? major b); [reflexivity|].
  destruct (functional a >? functional b); [reflexivity|].
  destruct (technical a >? technical b); [reflexivity|].
  cbn in H. now rewrite !andb_false_r in H.
Qed.

Lemma Version_gt_of_lex_witness :
  Version_gt (rc 202401 2 0 1) (final 202401 1 7) = true.
Proof.
  apply (Version_gt_of_lex (rc 202401 2 0 1) (final 202401 1 7)).
  reflexivity.
Defined.

(** ** Bump predicates *)

(** X9: some bump predicate answers true exactly when some component of
    the triple is larger; [bumped_functional] excludes both [bumped_major]
    and [bumped_technical]. *)
Theorem bump_predicates_cover (a b : Version) :
  bumped_major a b || bumped_functional a b || bumped_technical a b
  = some_component_increased a b
  /\ bumped_major a b && bumped_functional a b = false
  /\ bumped_functional a b && bumped_technical a b = false.
Proof.
  unfold bumped_technical, bumped_functional, bumped_major,
    some_component_increased.
  destruct (major a >? major b), (functional a >? functional b),
    (technical a >? technical b); now repeat split.
Qed.

(** X10: when there is no major bump and the version is greater in its
    triple, exactly one of [bumped_functional] and [bumped_technical] is
    true, and it names the most significant component that grew. *)
Theorem bump_exclusive_without_major (a b : Version) :
  bumped_major a b = false ->
  some_component_increased a b = true ->
  xorb (bumped_functional a b) (bumped_technical a b) = true
  /\ bumped_functional a b = (functional a >? functional b)
  /\ bumped_technical a b
     = negb (functional a >? functional b) && (technical a >? technical b).
Proof.
  unfold bumped_technical, bumped_functional, bumped_major,
    some_component_increased.
  intros ->. cbn [negb andb orb].
  destruct (functional a >? functional b), (technical a >? technical b);
    cbn; intros H; try discriminate H; now repeat split.
Qed.

Lemma bump_exclusive_without_major_witness :
  xorb (bumped_functional (final 202401 2 0) (final 202401 1 7))
       (bumped_technical (final 202401 2 0) (final 202401 1 7)) = true.
Proof.
  exact (proj1 (bump_exclusive_without_major (final 202401 2 0)
                  (final 202401 1 7) eq_refl eq_refl)).
Defined.


(** ** The tag history reader *)

Lemma get_last_n_tags_inv {Change : Type} (w : World Change) (n : Z)
    (on_branch : string) (ex : bool) (t : list Call) (p : Produced) :
  get_last_n_tags w n on_branch ex = (t, Ok p) ->
  exists output,
    git_tag_merged w (history_reference on_branch) = Ok output
    /\ t = [GitTagMerged (history_reference on_branch)]
    /\ p = tag_loop n ex 0 (considered on_branch output).
Proof.
  unfold get_last_n_tags, query, considered.
  destruct (git_tag_merged w _) as [output|e]; [|discriminate].
  rewrite bind_ok. cbn. intros [= <- <-]. now exists output.
Qed.

Lemma get_last_n_tags_listed {Change : Type} (w : World Change) (n : Z)
    (on_branch : string) (ex : bool) (output : list string) :
  git_tag_merged w (history_reference on_branch) = Ok output ->
  get_last_n_tags w n on_branch ex
  = ([GitTagMerged (history_reference on_branch)],
     Ok (tag_loop n ex 0 (considered on_branch output))).
Proof.
  intros G. unfold get_last_n_tags, query, considered.
  rewrite G, bind_ok. reflexivity.
Qed.

Lemma tag_loop_count (n : Z) (ex : bool) (output : list string) :
  forall counter : Z,
    Z.of_nat (List.length (yielded (tag_loop n ex counter output)))
    <= Z.max 0 (n - counter).
Proof.
  induction output as [|tag rest IH]; intros counter; cbn [tag_loop].
  - cbn. lia.
  - destruct (counter >=? n) eqn:C; [cbn; lia|].
    rewrite Z.geb_leb in C. apply Z.leb_gt in C.
    destruct (from_string tag true) as [v|e]; [|cbn; lia].
    destruct (ex && is_candidate v).
    + apply IH.
    + cbn [yield yielded List.length]. specialize (IH (counter + 1)). lia.
Qed.

Lemma tag_loop_yields_qualified (n : Z) (ex : bool) (output : list string) :
  forall counter : Z,
    Forall (fun tag => qualifies ex tag = true)
           (yielded (tag_loop n ex counter output)).
Proof.
  induction output as [|tag rest IH]; intros counter; cbn [tag_loop].
  - constructor.
  - destruct (counter >=? n); [constructor|].
    destruct (from_string tag true) as [v|e] eqn:P; [|constructor].
    destruct (ex && is_candidate v) eqn:X; [apply IH|].
    cbn [yield yielded]. constructor; [|apply IH].
    unfold qualifies. now rewrite P, X.
Qed.

(** X11: the reader yields at most [n] tags; each is a line the loop ran
    over that parses as a version, and none is a release candidate when
    candidates are excluded. *)
Theorem get_last_n_tags_yields {Change : Type} (w : World Change) (n : Z)
    (on_branch : string) (ex : bool) (t : list Call) (p : Produced) :
  get_last_n_tags w n on_branch ex = (t, Ok p) ->
  Z.of_nat (List.length (yielded p)) <= Z.max 0 n
  /\ exists output,
       git_tag_merged w (history_reference on_branch) = Ok output
       /\ Forall (fun tag =>
                    In tag (considered on_branch output)
                    /\ exists v, from_string tag true = Ok v
                                 /\ (ex = true -> is_candidate v = false))
                 (yielded p).
Proof.
  intros H. destruct (get_last_n_tags_inv w n on_branch ex t p H)
    as (output & G & _ & ->).
  split.
  - pose proof (tag_loop_count n ex (considered on_branch output) 0). lia.
  - exists output. split; [exact G|].
    apply Forall_forall. intros tag I. split.
    + exact (tag_loop_yields_from_output _ _ _ _ _ I).
    + pose proof (tag_loop_yields_qualified n ex
                    (considered on_branch output) 0) as Q.
      rewrite Forall_forall in Q. specialize (Q tag I).
      unfold qualifies in Q.
      destruct (from_string tag true) as [v|e]; [|discriminate Q].
      exists v. split; [reflexivity|]. intros ->.
      cbn in Q. now destruct (is_candidate v).
Qed.

Lemma get_last_n_tags_yields_witness :
  Z.of_nat (List.length ["v202401.1.1"; "v202401.1.0"]) <= Z.max 0 2.
Proof.
  exact (proj1 (get_last_n_tags_yields world_functional_rc 2
                  "v202401.2.0-rc1" true
                  [GitTagMerged "tags/v202401.2.0-rc1"]
                  (mkProduced ["v202401.1.1"; "v202401.1.0"] (Ok tt) false)
                  eq_refl)).
Defined.

Lemma tag_loop_well_formed (n : Z) (ex : bool) (output : list string) :
  Forall parses output ->
  forall counter : Z,
    tag_loop n ex counter output
    = mkProduced
        (firstn (Z.to_nat (n - counter)) (filter (qualifies ex) output))
        (Ok tt)
        (counter + Z.of_nat (List.length (filter (qualifies ex) output)) <? n).
Proof.
  induction 1 as [|tag rest [v P] _ IH]; intros counter; cbn [tag_loop filter].
  - rewrite firstn_nil. cbn [List.length]. now rewrite Z.add_0_r.
  - destruct (counter >=? n) eqn:C.
    + rewrite Z.geb_leb in C. apply Z.leb_le in C.
      replace (Z.to_nat (n - counter)) with O by lia. cbn [firstn].
      f_equal. symmetry. apply Z.ltb_ge. lia.
    + rewrite Z.geb_leb in C. apply Z.leb_gt in C.
      assert (Q : qualifies ex tag = negb (ex && is_candidate v))
        by (unfold qualifies; now rewrite P).
      rewrite P, Q.
      destruct (ex && is_candidate v); cbn [negb].
      * apply IH.
      * rewrite IH. unfold yield; cbn [yielded finished shortfall_warning].
        replace (Z.to_nat (n - counter))
          with (S (Z.to_nat (n - (counter + 1)))) by lia.
        cbn [firstn List.length]. f_equal.
        f_equal. lia.
Qed.

(** X12: on a listing whose lines all parse, the reader yields the first
    [n] lines that qualify, in order, finishes normally, and warns exactly
    when fewer than [n] lines qualify. *)
Theorem get_last_n_tags_well_formed {Change : Type} (w : World Change)
    (n : Z) (on_branch : string) (ex : bool) (output : list string) :
  git_tag_merged w (history_reference on_branch) = Ok output ->
  Forall parses (considered on_branch output) ->
  let qualified := filter (qualifies ex) (considered on_branch output) in
  get_last_n_tags w n on_branch ex
  = ([GitTagMerged (history_reference on_branch)],
     Ok (mkProduced (firstn (Z.to_nat n) qualified) (Ok tt)
                    (Z.of_nat (List.length qualified) <? n))).
Proof.
  intros G F. cbv zeta.
  rewrite (get_last_n_tags_listed w n on_branch ex output G).
  rewrite (tag_loop_well_formed n ex _ F 0).
  now rewrite Z.sub_0_r, Z.add_0_l.
Qed.

Lemma get_last_n_tags_well_formed_witness :
  get_last_n_tags world_functional_rc 5 "main" true
  = ([GitTagMerged "remotes/origin/main"],
     Ok (mkProduced ["v202401.1.1"; "v202401.1.0"] (Ok tt) true)).
Proof.
  apply (get_last_n_tags_well_formed world_functional_rc 5 "main" true
           ["v202401.2.0-rc1"; "v202401.1.1"; "v202401.1.0"] eq_refl).
  repeat constructor; eexists; reflexivity.
Defined.

Lemma tag_loop_shortfall (n : Z) (ex : bool) (output : list string) :
  forall counter : Z,
    let p := tag_loop n ex counter output in
    shortfall_warning p = true
    <-> finished p = Ok tt
        /\ counter + Z.of_nat (List.length (yielded p)) < n.
Proof.
  induction output as [|tag rest IH]; intros counter; cbn zeta; cbn [tag_loop].
  - cbn. rewrite Z.ltb_lt, Z.add_0_r. tauto.
  - destruct (counter >=? n) eqn:C.
    + rewrite Z.geb_leb in C. apply Z.leb_le in C. cbn.
      split; [discriminate|]. intros [_ H]. lia.
    + destruct (from_string tag true) as [v|e].
      * destruct (ex && is_candidate v); [apply IH|].
        unfold yield; cbn [yielded finished shortfall_warning List.length].
        specialize (IH (counter + 1)). cbn zeta in IH. rewrite IH.
        rewrite Nat2Z.inj_succ. split; intros [F L]; (split; [exact F|lia]).
      * cbn. split; [discriminate|]. intros [F _]. discriminate F.
Qed.

(** X13: the shortfall warning is logged exactly when the reader ran
    through the whole listing without an error and yielded fewer than [n]
    tags. *)
Theorem get_last_n_tags_warning {Change : Type} (w : World Change) (n : Z)
    (on_branch : string) (ex : bool) (t : list Call) (p : Produced) :
  get_last_n_tags w n on_branch ex = (t, Ok p) ->
  (shortfall_warning p = true
   <-> finished p = Ok tt /\ Z.of_nat (List.length (yielded p)) < n).
Proof.
  intros H. destruct (get_last_n_tags_inv w n on_branch ex t p H)
    as (output & _ & _ & ->).
  pose proof (tag_loop_shortfall n ex (considered on_branch output) 0) as S.
  cbn zeta in S. now rewrite Z.add_0_l in S.
Qed.

Lemma get_last_n_tags_warning_witness :
  Z.of_nat (List.length ["v202401.1.1"; "v202401.1.0"]) < 5.
Proof.
  exact (proj2 (proj1 (get_last_n_tags_warning world_functional_rc 5 "main"
                         true [GitTagMerged "remotes/origin/main"]
                         (mkProduced ["v202401.1.1"; "v202401.1.0"]
                                     (Ok tt) true)
                         eq_refl) eq_refl)).
Defined.


Lemma tag_loop_nonpositive (n : Z) (ex : bool) (counter : Z)
    (output : list string) :
  n <= counter ->
  tag_loop n ex counter output = mkProduced [] (Ok tt) false.
Proof.
  intros H. destruct output as [|tag rest]; cbn [tag_loop].
  - f_equal. apply Z.ltb_ge. exact H.
  - replace (counter >=? n) with true; [reflexivity|].
    symmetry. rewrite Z.geb_leb. now apply Z.leb_le.
Qed.

Lemma tag_loop_lazy (n : Z) (ex : bool) (pre post : list string) :
  forall counter : Z,
    Z.of_nat (List.length (yielded (tag_loop n ex counter pre)))
    = n - counter ->
    tag_loop n ex counter (pre ++ post) = tag_loop n ex counter pre.
Proof.
  induction pre as [|tag rest IH]; intros counter H.
  - cbn in H. rewrite !tag_loop_nonpositive by lia. reflexivity.
  - cbn [tag_loop app] in *.
    destruct (counter >=? n); [reflexivity|].
    destruct (from_string tag true) as [v|e]; [|reflexivity].
    destruct (ex && is_candidate v).
    + now apply IH.
    + cbn [yield yielded List.length] in H. rewrite IH; [reflexivity|].
      rewrite Nat2Z.inj_succ in H. lia.
Qed.

(** X14: the reader stops looking once it has yielded [n] tags: lines
    added at the end of the listing, well formed or not, change nothing. *)
Theorem get_last_n_tags_lazy {Change : Type} (w w' : World Change) (n : Z)
    (on_branch : string) (ex : bool) (pre post : list string)
    (t : list Call) (p : Produced) :
  git_tag_merged w (history_reference on_branch) = Ok pre ->
  git_tag_merged w' (history_reference on_branch) = Ok (pre ++ post)%list ->
  get_last_n_tags w n on_branch ex = (t, Ok p) ->
  Z.of_nat (List.length (yielded p)) = n ->
  get_last_n_tags w' n on_branch ex = (t, Ok p).
Proof.
  intros G G' H L.
  rewrite (get_last_n_tags_listed w n on_branch ex pre G) in H.
  injection H as <- <-.
  rewrite (get_last_n_tags_listed w' n on_branch ex (pre ++ post) G').
  do 2 f_equal.
  destruct (Z.eq_dec n 0) as [->|N].
  - now rewrite !tag_loop_nonpositive by lia.
  - unfold considered in *.
    destruct (startswith (history_reference on_branch) "tags/").
    + destruct pre as [|first pre'].
      * cbn in L. lia.
      * cbn [tl app] in *. apply tag_loop_lazy. lia.
    + apply tag_loop_lazy. lia.
Qed.

Lemma get_last_n_tags_lazy_witness :
  get_last_n_tags
    (example_world "v202401.1.1"
       (["v202401.2.0-rc1"; "v202401.1.1"] ++ ["not a version"]) [])
    1 "v202401.2.0-rc1" true
  = ([GitTagMerged "tags/v202401.2.0-rc1"],
     Ok (mkProduced ["v202401.1.1"] (Ok tt) false)).
Proof.
  apply (get_last_n_tags_lazy
           (example_world "v202401.1.1" ["v202401.2.0-rc1"; "v202401.1.1"] [])
           (example_world "v202401.1.1"
              (["v202401.2.0-rc1"; "v202401.1.1"] ++ ["not a version"]) [])
           1 "v202401.2.0-rc1" true
           ["v202401.2.0-rc1"; "v202401.1.1"] ["not a version"]);
    reflexivity.
Defined.

(** X15: asked for no tag (or a negative number of tags), the reader
    yields nothing and neither fails nor warns, whatever the listing
    contains. *)
Theorem get_last_n_tags_none {Change : Type} (w : World Change) (n : Z)
    (on_branch : string) (ex : bool) (output : list string) :
  n <= 0 ->
  git_tag_merged w (history_reference on_branch) = Ok output ->
  get_last_n_tags w n on_branch ex
  = ([GitTagMerged (history_reference on_branch)],
     Ok (mkProduced [] (Ok tt) false)).
Proof.
  intros N G.
  rewrite (get_last_n_tags_listed w n on_branch ex output G).
  now rewrite tag_loop_nonpositive by lia.
Qed.

Lemma get_last_n_tags_none_witness :
  get_last_n_tags (example_world "v202401.1.1" ["not a version"] []) 0
    "main" true
  = ([GitTagMerged "remotes/origin/main"], Ok (mkProduced [] (Ok tt) false)).
Proof.
  apply (get_last_n_tags_none
           (example_world "v202401.1.1" ["not a version"] []) 0 "main" true
           ["not a version"]); [lia|reflexivity].
Defined.

(** ** The release locator *)

Lemma printable_reference (v : Version) (name : string)
    (output : list string) :
  printable v -> tag_name v = Ok name ->
  history_reference name = "tags/" ++ name
  /\ considered name output = tl output.
Proof.
  intros P T. unfold considered, history_reference.
  rewrite (from_string_tag_name v name P T).
  split; [reflexivity|].
  replace (startswith ("tags/" ++ name) "tags/") with true
    by (now destruct name).
  reflexivity.
Qed.

Lemma tag_loop_first_final (cands : list string) (tag : string)
    (rest : list string) (v : Version) :
  Forall parses_as_candidate cands ->
  from_string tag true = Ok v -> is_candidate v = false ->
  tag_loop 1 true 0 (cands ++ tag :: rest) = mkProduced [tag] (Ok tt) false.
Proof.
  intros F P C. induction F as [|c cs (vc & Pc & Cc) _ IH]; cbn [app tag_loop].
  - change (0 >=? 1) with false. cbv iota. rewrite P, C. cbn [andb].
    now rewrite tag_loop_nonpositive by lia.
  - change (0 >=? 1) with false. cbv iota. rewrite Pc, Cc. cbn [andb].
    exact IH.
Qed.

Lemma tag_loop_only_candidates (cands : list string) :
  Forall parses_as_candidate cands ->
  tag_loop 1 true 0 cands = mkProduced [] (Ok tt) true.
Proof.
  induction 1 as [|c cs (vc & Pc & Cc) _ IH]; cbn [tag_loop]; [reflexivity|].
  change (0 >=? 1) with false. cbv iota. rewrite Pc, Cc. exact IH.
Qed.

Lemma tag_loop_malformed (cands : list string) (bad : string)
    (rest : list string) (e : exn) :
  Forall parses_as_candidate cands ->
  from_string bad true = Raise e ->
  tag_loop 1 true 0 (cands ++ bad :: rest) = mkProduced [] (Raise e) false.
Proof.
  intros F P. induction F as [|c cs (vc & Pc & Cc) _ IH]; cbn [app tag_loop].
  - change (0 >=? 1) with false. cbv iota. now rewrite P.
  - change (0 >=? 1) with false. cbv iota. rewrite Pc, Cc. exact IH.
Qed.

Lemma get_last_version_before_listed {Change : Type} (w : World Change)
    (cur : Version) (name : string) (output : list string) :
  printable cur -> tag_name cur = Ok name ->
  git_tag_merged w ("tags/" ++ name) = Ok output ->
  get_last_version_before w cur
  = ([GitTagMerged ("tags/" ++ name)],
     rbind (one (tag_loop 1 true 0 (tl output)))
           (fun tag => from_string tag false)).
Proof.
  intros P T G. unfold get_last_version_before.
  destruct (printable_reference cur name output P T) as [R C].
  rewrite <- R in G.
  rewrite T, bind_lift_ok.
  rewrite (get_last_n_tags_listed w 1 name true output G).
  rewrite R, C, bind_ok.
  destruct (one _) as [tag|e]; cbn [rbind].
  - rewrite bind_lift_ok. unfold lift, trace, outcome; cbn. reflexivity.
  - unfold lift, trace, outcome; cbn. reflexivity.
Qed.

(** X16: the predecessor of a printable version is the first final
    release listed after the first line, release candidates in between
    being skipped; what follows it in the listing is not looked at. *)
Theorem get_last_version_before_first_final {Change : Type}
    (w : World Change) (cur v : Version) (name first tag : string)
    (cands rest : list string) :
  printable cur -> tag_name cur = Ok name ->
  git_tag_merged w ("tags/" ++ name)
  = Ok (first :: cands ++ tag :: rest)%list ->
  Forall parses_as_candidate cands ->
  from_string tag true = Ok v -> is_candidate v = false ->
  get_last_version_before w cur
  = ([GitTagMerged ("tags/" ++ name)], Ok v).
Proof.
  intros P N G F T C.
  rewrite (get_last_version_before_listed w cur name _ P N G). cbn [tl].
  rewrite (tag_loop_first_final cands tag rest v F T C).
  cbn [one yielded finished rbind].
  destruct (from_string_modes tag v) as [[_ H] _].
  now rewrite (H (conj T C)).
Qed.

Lemma get_last_version_before_first_final_witness :
  get_last_version_before
    (example_world "v202401.1.1"
       ["v202401.2.0"; "v202401.2.0-rc2"; "v202401.2.0-rc1"; "v202401.1.1";
        "nightly"] [])
    (final 202401 2 0)
  = ([GitTagMerged "tags/v202401.2.0"], Ok (final 202401 1 1)).
Proof.
  apply (get_last_version_before_first_final _ (final 202401 2 0)
           (final 202401 1 1) "v202401.2.0" "v202401.2.0" "v202401.1.1"
           ["v202401.2.0-rc2"; "v202401.2.0-rc1"] ["nightly"]).
  - unfold printable; cbn; lia.
  - reflexivity.
  - reflexivity.
  - repeat constructor; eexists; split; reflexivity.
  - reflexivity.
  - reflexivity.
Defined.

(** X17: when nothing but release candidates is listed after the first
    line (in particular for the first release ever) the predecessor lookup
    fails with the [ValueError] of [one] on an empty iterable; a malformed
    line met before any final release makes it fail with the parse error
    of that line. *)
Theorem get_last_version_before_failures {Change : Type}
    (w : World Change) (cur : Version) (name : string)
    (output : list string) :
  printable cur -> tag_name cur = Ok name ->
  git_tag_merged w ("tags/" ++ name) = Ok output ->
  (Forall parses_as_candidate (tl output) ->
   get_last_version_before w cur
   = ([GitTagMerged ("tags/" ++ name)],
      Raise (ValueError TooFewItems)))
  /\ (forall cands bad rest e,
         tl output = (cands ++ bad :: rest)%list ->
         Forall parses_as_candidate cands ->
         from_string bad true = Raise e ->
         get_last_version_before w cur
         = ([GitTagMerged ("tags/" ++ name)], Raise e)).
Proof.
  intros P N G. rewrite (get_last_version_before_listed w cur name _ P N G).
  split.
  - intros F. now rewrite (tag_loop_only_candidates _ F).
  - intros cands bad rest e E F B. rewrite E.
    now rewrite (tag_loop_malformed cands bad rest e F B).
Qed.

Lemma get_last_version_before_failures_witness :
  get_last_version_before
    (example_world "v202401.0.0" ["v202401.0.0"; "v202401.0.0-rc1"] [])
    (final 202401 0 0)
  = ([GitTagMerged "tags/v202401.0.0"], Raise (ValueError TooFewItems)).
Proof.
  apply (proj1 (get_last_version_before_failures
                  (example_world "v202401.0.0"
                     ["v202401.0.0"; "v202401.0.0-rc1"] [])
                  (final 202401 0 0) "v202401.0.0"
                  ["v202401.0.0"; "v202401.0.0-rc1"]
                  ltac:(unfold printable; cbn; lia) eq_refl eq_refl)).
  repeat constructor; eexists; split; reflexivity.
Defined.

Lemma tag_loop_raises_parse_error (n : Z) (ex : bool)
    (output : list string) :
  forall (counter : Z) (e : exn),
    finished (tag_loop n ex counter output) = Raise e ->
    e = ValueError PatternMismatch \/ e = ValueError ExceedsDigitLimit.
Proof.
  induction output as [|tag rest IH]; intros c e; cbn [tag_loop];
    [discriminate|].
  destruct (c >=? n); [discriminate|].
  destruct (from_string tag true) as [v|e'] eqn:P.
  - destruct (ex && is_candidate v); [apply IH|].
    unfold yield; cbn [finished]. apply IH.
  - cbn [finished]. intros [= <-].
    destruct (from_string_raises tag true e' P)
      as [[E _]|[[E _]|(_ & E & _)]];
      [now left|now right|discriminate E].
Qed.

(** X18: whatever the listing, the predecessor lookup of a version with a
    tag name makes the single query for the tags merged into its
    reference, never fails for having found several tags, and returns
    final releases only. *)
Theorem get_last_version_before_result {Change : Type} (w : World Change)
    (cur : Version) (name : string) (output : list string) :
  tag_name cur = Ok name ->
  git_tag_merged w (history_reference name) = Ok output ->
  trace (get_last_version_before w cur)
  = [GitTagMerged (history_reference name)]
  /\ outcome (get_last_version_before w cur)
     <> Raise (ValueError TooManyItems)
  /\ forall v, outcome (get_last_version_before w cur) = Ok v ->
               is_candidate v = false.
Proof.
  intros N G. split; [now rewrite trace_get_last_version_before, N|].
  unfold get_last_version_before. rewrite N, bind_lift_ok.
  rewrite (get_last_n_tags_listed w 1 name true output G), bind_ok.
  set (p := tag_loop 1 true 0 (considered name output)).
  assert (L : Z.of_nat (List.length (yielded p)) <= 1)
    by (unfold p; pose proof (tag_loop_count 1 true
                                (considered name output) 0); lia).
  assert (Q : Forall (fun tag => qualifies true tag = true) (yielded p))
    by (unfold p; apply tag_loop_yields_qualified).
  assert (R : forall e, finished p = Raise e ->
                        e = ValueError PatternMismatch
                        \/ e = ValueError ExceedsDigitLimit)
    by (intros e; unfold p; apply tag_loop_raises_parse_error).
  assert (O : one p <> Raise (ValueError TooManyItems)
              /\ forall tag, one p = Ok tag -> qualifies true tag = true).
  { unfold one. destruct (yielded p) as [|a [|b r]].
    - destruct (finished p) as [[]|e] eqn:F; split; try discriminate.
      intros [= ->]. destruct (R _ eq_refl) as [X|X]; discriminate X.
    - inversion Q as [|? ? Qa _]; subst.
      destruct (finished p) as [[]|e] eqn:F; split; try discriminate.
      + now intros tag [= <-].
      + intros [= ->]. destruct (R _ eq_refl) as [X|X]; discriminate X.
    - cbn in L. lia. }
  destruct O as [O1 O2].
  destruct (one p) as [tag|e] eqn:E.
  - rewrite bind_lift_ok. unfold lift, outcome; cbn [snd].
    specialize (O2 tag eq_refl). split.
    + intros H.
      destruct (from_string_raises tag false _ H)
        as [[X _]|[[X _]|(X & _)]];
        discriminate X.
    + intros v H. now apply from_string_modes in H.
  - unfold lift, outcome; cbn. split; [congruence|discriminate].
Qed.

Lemma get_last_version_before_result_witness :
  outcome (get_last_version_before world_functional_rc (rc 202401 2 0 1))
  <> Raise (ValueError TooManyItems).
Proof.
  exact (proj1 (proj2 (get_last_version_before_result world_functional_rc
                         (rc 202401 2 0 1) "v202401.2.0-rc1"
                         ["v202401.2.0-rc1"; "v202401.1.1"; "v202401.1.0"]
                         eq_refl eq_refl))).
Defined.

Lemma str_short (n : Z) :
  0 <= n < 100000 -> (String.length (str_nonneg n) <= 5)%nat.
Proof.
  intros B.
  assert (D : forall m, 10 <= m ->
              String.length (str_nonneg m)
              = S (String.length (str_nonneg (m / 10)))).
  { intros m L. rewrite str_nonneg_step, length_append by exact L.
    cbn [String.length]. lia. }
  assert (S1 : forall m, 0 <= m < 10 -> String.length (str_nonneg m) = 1%nat)
    by (intros m Bm; now rewrite str_nonneg_small).
  assert (B1 : 0 <= n / 10 < 10000)
    by (Z.to_euclidean_division_equations; lia).
  assert (B2 : 0 <= n / 10 / 10 < 1000)
    by (Z.to_euclidean_division_equations; lia).
  assert (B3 : 0 <= n / 10 / 10 / 10 < 100)
    by (Z.to_euclidean_division_equations; lia).
  assert (B4 : 0 <= n / 10 / 10 / 10 / 10 < 10)
    by (Z.to_euclidean_division_equations; lia).
  destruct (Z_lt_le_dec n 10); [rewrite S1; lia|rewrite D by lia].
  destruct (Z_lt_le_dec (n / 10) 10); [rewrite S1; lia|rewrite D by lia].
  destruct (Z_lt_le_dec (n / 10 / 10) 10); [rewrite S1; lia|rewrite D by lia].
  destruct (Z_lt_le_dec (n / 10 / 10 / 10) 10);
    [rewrite S1; lia|rewrite D by lia].
  rewrite S1; lia.
Qed.

Lemma tag_name_short_major (v : Version) (name : string) :
  0 <= major v < 100000 -> tag_name v = Ok name ->
  from_string name true = Raise (ValueError PatternMismatch).
Proof.
  intros B T. apply from_string_unmatched.
  unfold tag_name in T.
  rewrite (str_run (major v)) in T by lia.
  destruct (within_limit (str_nonneg (major v))); [|discriminate T].
  cbn [rbind] in T.
  destruct (str (functional v)) as [fu|]; [|discriminate T].
  destruct (str (technical v)) as [te|]; [|discriminate T].
  cbn [rbind] in T.
  destruct (match candidate v with
            | Some c => rbind (str c) (fun ca => Ok ("-rc" ++ ca))
            | None => Ok ""
            end) as [suffix|]; [|discriminate T].
  cbn [rbind] in T. injection T as <-.
  unfold version_pattern_fullmatch, obind.
  match goal with
  | |- context [expect "v" (String "v" ?t)] =>
      change (String "v" t) with ("v" ++ t)
  end.
  rewrite expect_append.
  destruct (str_nonneg_digits (major v) ltac:(lia)) as (_ & D & _).
  rewrite span_digits_append by (exact D || reflexivity).
  pose proof (str_short (major v) B) as L.
  destruct (Nat.eqb_spec (String.length (str_nonneg (major v))) 6) as [X|_];
    [lia|reflexivity].
Qed.

(** X19: a parsed version has a tag name, and its predecessor lookup
    refers to that tag exactly when its major has six digits; for a major
    below 100000 the tag name does not parse back and the lookup asks for
    a branch of that name instead. *)
Theorem get_last_version_before_reference {Change : Type}
    (w : World Change) (s : string) (v : Version) :
  from_string s true = Ok v ->
  exists name,
    tag_name v = Ok name
    /\ trace (get_last_version_before w v)
       = [GitTagMerged (if 100000 <=? major v
                        then "tags/" ++ name
                        else "remotes/origin/" ++ name)].
Proof.
  intros P. pose proof (parsed_formats s true v P) as N.
  eexists. split; [exact N|].
  rewrite trace_get_last_version_before, N. do 2 f_equal.
  destruct (from_string_range s true v P) as (Rma & Rfu & Rte & Rca).
  unfold history_reference.
  destruct (100000 <=? major v) eqn:B.
  - apply Z.leb_le in B.
    rewrite (from_string_tag_name v _); [reflexivity| |exact N].
    unfold printable. repeat split; try assumption; lia.
  - apply Z.leb_gt in B.
    rewrite (tag_name_short_major v _); [reflexivity|lia|exact N].
Qed.

Lemma get_last_version_before_reference_witness :
  exists name,
    tag_name (final 1 0 0) = Ok name
    /\ trace (get_last_version_before world_retagged (final 1 0 0))
       = [GitTagMerged ("remotes/origin/" ++ name)].
Proof.
  exact (get_last_version_before_reference world_retagged "v000001.0.0"
           (final 1 0 0) eq_refl).
Defined.
(** ** The latest release and the main branch *)

(** X20: for a latest version with a tag name, and provided both git
    commands succeed, [ensure_latest_on_main] succeeds exactly when some line of the branch listing, stripped of
    white space and of the current-branch marker, is remotes/origin/main;
    otherwise it raises a [ValueError] whose wording alone depends on
    [is_cur_version_latest]. *)
Theorem ensure_latest_on_main_criterion {Change : Type} (w : World Change)
    (latest : Version) (is_latest : bool) (name raw : string)
    (output : list string) :
  tag_name latest = Ok name ->
  git_rev_parse w ("tags/" ++ name ++ "~0") = Ok raw ->
  git_branch_contains w (strip raw) = Ok output ->
  (outcome (ensure_latest_on_main w latest is_latest) = Ok tt
   <-> exists line, In line output
                    /\ lstrip (lstrip_char "*" (strip line))
                       = "remotes/origin/main")
  /\ (outcome (ensure_latest_on_main w latest is_latest) <> Ok tt ->
      outcome (ensure_latest_on_main w latest is_latest)
      = Raise (ValueError (if is_latest then TaggedLatestNotOnMain
                           else LatestNotOnMain))).
Proof.
  intros N R B. unfold ensure_latest_on_main, query.
  rewrite N, bind_lift_ok.
  rewrite R, bind_ok. cbn [trace outcome fst snd].
  rewrite B, bind_ok.
  destruct (existsb _ _) eqn:E.
  - split; [|intros H; now contradiction H].
    split; [intros _|reflexivity].
    apply existsb_exists in E. destruct E as (x & I & X).
    apply in_map_iff in I. destruct I as (line & <- & I).
    apply String.eqb_eq in X. now exists line.
  - split.
    + split; [destruct is_latest; discriminate|].
      intros (line & I & X). exfalso.
      assert (T : existsb (String.eqb "remotes/origin/main")
                    (map (fun line => lstrip (lstrip_char "*" (strip line)))
                         output) = true).
      { apply existsb_exists. exists (lstrip (lstrip_char "*" (strip line))).
        split; [apply in_map_iff; now exists line|].
        rewrite X. apply String.eqb_refl. }
      congruence.
    + intros _. now destruct is_latest.
Qed.

Lemma ensure_latest_on_main_criterion_witness :
  outcome (ensure_latest_on_main world_major (final 202401 1 1) false) = Ok tt.
Proof.
  apply (proj1 (ensure_latest_on_main_criterion world_major
                  (final 202401 1 1) false "v202401.1.1"
                  ("4c1d9e2" ++ newline)
                  ["* main"; "  remotes/origin/HEAD -> origin/main";
                   "  remotes/origin/main"] eq_refl eq_refl eq_refl)).
  exists "  remotes/origin/main". split; [cbn; tauto|reflexivity].
Defined.


(** ** The bump policy enforcer as a whole *)

(** How far the check gets: each of the first five steps either stops it
    with its own error or hands over to the next. *)
Lemma enforcer_cases {Change : Type} (w : World Change) (gh_version : string)
    (gh_token : option string) :
  (exists e,
      from_string gh_version true = Raise e
      /\ forall mba, compare_work_tree_with_latest_version w gh_version
                       gh_token mba = ([], Raise e))
  \/ exists cur,
      from_string gh_version true = Ok cur
      /\ ((exists e,
              get_latest_version w gh_token = ([GithubLatestRelease], Raise e)
              /\ forall mba, compare_work_tree_with_latest_version w
                               gh_version gh_token mba
                             = ([GithubLatestRelease], Raise e))
          \/ exists latest,
              get_latest_version w gh_token
              = ([GithubLatestRelease], Ok latest)
              /\ ((exists t2 e,
                      ensure_latest_on_main w latest (Version_eq cur latest)
                      = (t2, Raise e)
                      /\ forall mba,
                          compare_work_tree_with_latest_version w gh_version
                            gh_token mba
                          = ((GithubLatestRelease :: t2)%list, Raise e))
                  \/ exists t2,
                      ensure_latest_on_main w latest (Version_eq cur latest)
                      = (t2, Ok tt)
                      /\ ((exists t3 e,
                              get_last_version_before w cur = (t3, Raise e)
                              /\ forall mba,
                                  compare_work_tree_with_latest_version w
                                    gh_version gh_token mba
                                  = ((GithubLatestRelease :: t2 ++ t3)%list,
                                     Raise e))
                          \/ exists t3 behind,
                              get_last_version_before w cur = (t3, Ok behind)))).
Proof.
  destruct (from_string gh_version true) as [cur|e] eqn:P.
  2: { left. exists e. split; [reflexivity|]. intros mba.
       unfold compare_work_tree_with_latest_version. now rewrite P. }
  right. exists cur. split; [reflexivity|].
  pose proof (trace_get_latest_version w gh_token) as T1.
  destruct (get_latest_version w gh_token) as [t1 [latest|e]] eqn:L;
    cbn in T1; subst t1.
  2: { left. exists e. split; [reflexivity|]. intros mba.
       unfold compare_work_tree_with_latest_version.
       now rewrite P, bind_lift_ok, L. }
  right. exists latest. split; [reflexivity|].
  destruct (ensure_latest_on_main w latest (Version_eq cur latest))
    as [t2 [[]|e]] eqn:E.
  2: { left. exists t2, e. split; [reflexivity|]. intros mba.
       unfold compare_work_tree_with_latest_version.
       now rewrite P, bind_lift_ok, L, bind_ok, E. }
  right. exists t2. split; [reflexivity|].
  destruct (get_last_version_before w cur) as [t3 [behind|e]] eqn:B.
  2: { left. exists t3, e. split; [reflexivity|]. intros mba.
       unfold compare_work_tree_with_latest_version.
       rewrite P, bind_lift_ok, L, bind_ok, E, bind_ok, B. reflexivity. }
  right. now exists t3, behind.
Qed.

Lemma trace_ensure_latest_on_main {Change : Type} (w : World Change)
    (latest : Version) (b : bool) :
  exists k, map call_kind (trace (ensure_latest_on_main w latest b))
            = firstn k [KRevParse; KBranchContains]
            /\ (outcome (ensure_latest_on_main w latest b) = Ok tt ->
                k = 2%nat).
Proof.
  unfold ensure_latest_on_main, query.
  destruct (tag_name latest) as [name|e];
    [rewrite bind_lift_ok|exists 0%nat; split; [reflexivity|discriminate]].
  destruct (git_rev_parse w _) as [raw|e].
  - rewrite bind_ok. cbn [trace outcome fst snd].
    destruct (git_branch_contains w _) as [out|e].
    + rewrite bind_ok. exists 2%nat. split; [|reflexivity].
      destruct (existsb _ _); [|destruct b]; reflexivity.
    + exists 2%nat. split; reflexivity.
  - exists 1%nat. split; [reflexivity|discriminate].
Qed.

Lemma trace_check_bump_policy {Change : Type} (w : World Change)
    (gh_token : option string) (mba : bool) (cur behind : Version) :
  map call_kind (trace (check_bump_policy w gh_token mba cur behind)) = []
  \/ map call_kind (trace (check_bump_policy w gh_token mba cur behind))
     = [KSchemaDiff].
Proof.
  unfold check_bump_policy, query.
  destruct (bumped_major cur behind).
  - left. now destruct mba.
  - destruct (tag_name behind) as [behind_tag|e]; [|now left].
    rewrite bind_lift_ok.
    destruct (tag_name cur) as [ahead_tag|e]; [|now left].
    rewrite bind_lift_ok.
    right. destruct (compare_bo4e_versions w _ _ _) as [changes|e];
      [|reflexivity].
    rewrite bind_ok.
    destruct (_ && _); [reflexivity|]. destruct (_ && _); reflexivity.
Qed.

Lemma trace_predecessor_of_parsed {Change : Type} (w : World Change)
    (s : string) (cur : Version) :
  from_string s true = Ok cur ->
  map call_kind (trace (get_last_version_before w cur)) = [KTagMerged].
Proof.
  intros P. rewrite trace_get_last_version_before.
  now rewrite (parsed_formats s true cur P).
Qed.

(** X21: the enforcer makes its queries in one fixed order (latest
    release, rev-parse, branches containing the commit, merged tags, schema
    diff) and stops at the first step that fails; in particular the schema
    diff is asked at most once, after everything else. *)
Theorem enforcer_query_order {Change : Type} (w : World Change)
    (gh_version : string) (gh_token : option string) (mba : bool) :
  exists k,
    map call_kind
        (trace (compare_work_tree_with_latest_version w gh_version gh_token
                  mba))
    = firstn k enforcer_protocol.
Proof.
  destruct (enforcer_cases w gh_version gh_token)
    as [(e & _ & H)|(cur & P & [(e & _ & H)|(latest & L &
         [(t2 & e & E & H)|(t2 & E & [(t3 & e & B & H)|(t3 & behind & B)])])])].
  - rewrite H. now exists 0%nat.
  - rewrite H. now exists 1%nat.
  - rewrite H.
    destruct (trace_ensure_latest_on_main w latest (Version_eq cur latest))
      as (k & T & _).
    rewrite E in T. cbn [trace fst] in *.
    cbn [map call_kind]. rewrite T.
    destruct k as [|[|[|k]]];
      [now exists 1%nat|now exists 2%nat|now exists 3%nat..].
  - rewrite H.
    destruct (trace_ensure_latest_on_main w latest (Version_eq cur latest))
      as (k & T & K).
    rewrite E in T, K. cbn [trace outcome fst snd] in *.
    specialize (K eq_refl). subst k.
    pose proof (trace_predecessor_of_parsed w gh_version cur P) as T3.
    rewrite B in T3. cbn [trace fst] in T3.
    exists 4%nat. cbn [map call_kind]. rewrite map_app, T, T3. reflexivity.
  - rewrite (enforcer_after_gates w gh_version gh_token cur latest behind
               _ t2 t3 mba P L E B).
    destruct (trace_ensure_latest_on_main w latest (Version_eq cur latest))
      as (k & T & K).
    rewrite E in T, K. cbn [trace outcome fst snd] in *.
    specialize (K eq_refl). subst k.
    pose proof (trace_predecessor_of_parsed w gh_version cur P) as T3.
    rewrite B in T3. cbn [trace fst] in T3.
    destruct (Version_gt cur behind).
    + cbn zeta. unfold trace at 1. cbn [fst].
      rewrite !map_app, T, T3.
      destruct (trace_check_bump_policy w gh_token mba cur behind) as [Z|Z];
        rewrite Z; [now exists 4%nat|now exists 5%nat].
    + exists 4%nat. cbn [trace fst]. rewrite !map_app, T, T3. reflexivity.
Qed.


Lemma get_latest_version_final {Change : Type} (w : World Change)
    (gh_token : option string) (t : list Call) (v : Version) :
  get_latest_version w gh_token = (t, Ok v) -> is_candidate v = false.
Proof.
  unfold get_latest_version, query.
  destruct (latest_release_tag w gh_token) as [tag|e]; [|discriminate].
  rewrite bind_ok. unfold lift, outcome; cbn [snd].
  intros [= _ H]. now apply from_string_modes in H.
Qed.

Lemma get_last_version_before_final {Change : Type} (w : World Change)
    (cur : Version) (t : list Call) (v : Version) :
  get_last_version_before w cur = (t, Ok v) -> is_candidate v = false.
Proof.
  unfold get_last_version_before.
  destruct (tag_name cur) as [name|e]; [rewrite bind_lift_ok|discriminate].
  destruct (get_last_n_tags w 1 name true) as [t' [p|e]];
    [|discriminate].
  rewrite bind_ok.
  destruct (one p) as [tag|e]; [|discriminate].
  rewrite bind_lift_ok. unfold lift, outcome; cbn [snd].
  intros [= _ H]. now apply from_string_modes in H.
Qed.

(** X22: when the check passes, the declared version parses, the latest
    release and the predecessor are final releases, the latest release is
    on main, the declared version is greater than the predecessor, and
    either it is a major bump that was allowed (and the schema diff was
    not asked) or the schema diff of the two tag names found changes
    exactly when the bump is functional. *)
Theorem enforcer_success {Change : Type} (w : World Change)
    (gh_version : string) (gh_token : option string) (mba : bool)
    (t : list Call) :
  compare_work_tree_with_latest_version w gh_version gh_token mba
  = (t, Ok tt) ->
  exists cur latest behind,
    from_string gh_version true = Ok cur
    /\ outcome (get_latest_version w gh_token) = Ok latest
    /\ is_candidate latest = false
    /\ outcome (ensure_latest_on_main w latest (Version_eq cur latest))
       = Ok tt
    /\ outcome (get_last_version_before w cur) = Ok behind
    /\ is_candidate behind = false
    /\ Version_gt cur behind = true
    /\ if bumped_major cur behind
       then mba = true /\ existsb is_schema_diff t = false
       else exists behind_tag ahead_tag changes,
           tag_name behind = Ok behind_tag
           /\ tag_name cur = Ok ahead_tag
           /\ compare_bo4e_versions w behind_tag ahead_tag gh_token
              = Ok changes
           /\ (changes = [] <-> bumped_functional cur behind = false).
Proof.
  intros H.
  destruct (enforcer_cases w gh_version gh_token)
    as [(e & _ & X)|(cur & P & [(e & _ & X)|(latest & L &
         [(t2 & e & E & X)|(t2 & E & [(t3 & e & B & X)|(t3 & behind & B)])])])];
    try (rewrite X in H; discriminate H).
  exists cur, latest, behind.
  rewrite L, E, B. unfold outcome; cbn [snd].
  split; [exact P|]. split; [reflexivity|].
  split; [exact (get_latest_version_final w gh_token _ latest L)|].
  split; [reflexivity|]. split; [reflexivity|].
  split; [exact (get_last_version_before_final w cur t3 behind B)|].
  rewrite (enforcer_after_gates w gh_version gh_token cur latest behind
             _ t2 t3 mba P L E B) in H.
  destruct (Version_gt cur behind); [|discriminate H].
  split; [reflexivity|].
  cbn zeta in H. injection H as Ht Ho.
  unfold check_bump_policy, query in *.
  destruct (bumped_major cur behind).
  - destruct mba; [|discriminate Ho]. split; [reflexivity|].
    subst t. cbn [negb trace ret fst]. rewrite app_nil_r.
    exact (earlier_no_diff w gh_token cur latest behind _ _ t2 t3 L E B).
  - destruct (tag_name behind) as [behind_tag|e]; [|discriminate Ho].
    rewrite bind_lift_ok in Ho, Ht.
    destruct (tag_name cur) as [ahead_tag|e]; [|discriminate Ho].
    rewrite bind_lift_ok in Ho, Ht.
    destruct (compare_bo4e_versions w _ _ _) as [changes|e] eqn:D;
      [|discriminate Ho].
    exists behind_tag, ahead_tag, changes.
    split; [reflexivity|]. split; [reflexivity|]. split; [exact D|].
    rewrite bind_ok in Ho. unfold outcome in Ho; cbn [snd] in Ho.
    destruct changes as [|c cs], (bumped_functional cur behind);
      cbn in Ho; try discriminate Ho; split; congruence.
Qed.

Lemma enforcer_success_witness :
  exists cur latest behind,
    from_string "v202501.0.0" true = Ok cur
    /\ outcome (get_latest_version world_major None) = Ok latest
    /\ is_candidate latest = false
    /\ outcome (ensure_latest_on_main world_major latest
                  (Version_eq cur latest)) = Ok tt
    /\ outcome (get_last_version_before world_major cur) = Ok behind
    /\ is_candidate behind = false
    /\ Version_gt cur behind = true
    /\ if bumped_major cur behind
       then true = true
            /\ existsb is_schema_diff
                 [GithubLatestRelease; GitRevParse "tags/v202401.1.1~0";
                  GitBranchContains "4c1d9e2";
                  GitTagMerged "tags/v202501.0.0"] = false
       else exists behind_tag ahead_tag changes,
           tag_name behind = Ok behind_tag
           /\ tag_name cur = Ok ahead_tag
           /\ compare_bo4e_versions world_major behind_tag ahead_tag None
              = Ok changes
           /\ (changes = [] <-> bumped_functional cur behind = false).
Proof.
  exact (enforcer_success world_major "v202501.0.0" None true _ eq_refl).
Defined.

Lemma major_bump_flag_effect {Change : Type}
    (w : World Change) (gh_version : string) (gh_token : option string) :
  compare_work_tree_with_latest_version w gh_version gh_token true
  = compare_work_tree_with_latest_version w gh_version gh_token false
  \/ exists t,
      compare_work_tree_with_latest_version w gh_version gh_token true
      = (t, Ok tt)
      /\ compare_work_tree_with_latest_version w gh_version gh_token false
         = (t, Raise (ValueError MajorBumpNotAllowed)).
Proof.
  destruct (enforcer_cases w gh_version gh_token)
    as [(e & _ & X)|(cur & P & [(e & _ & X)|(latest & L &
         [(t2 & e & E & X)|(t2 & E & [(t3 & e & B & X)|(t3 & behind & B)])])])];
    try (left; now rewrite !X).
  rewrite !(enforcer_after_gates w gh_version gh_token cur latest behind
              _ t2 t3 _ P L E B).
  destruct (Version_gt cur behind); [|now left].
  unfold check_bump_policy.
  destruct (bumped_major cur behind); [|now left].
  right. eexists. split; reflexivity.
Qed.

(** X23: forbidding major bumps changes the result of the check in one
    way only: a run that passes on an allowed major bump fails with the
    major-bump error instead, after the same queries. *)
Theorem major_bump_allowed_only_adds_failure {Change : Type}
    (w : World Change) (gh_version : string) (gh_token : option string) :
  compare_work_tree_with_latest_version w gh_version gh_token true
  = compare_work_tree_with_latest_version w gh_version gh_token false
  \/ exists t,
      compare_work_tree_with_latest_version w gh_version gh_token true
      = (t, Ok tt)
      /\ compare_work_tree_with_latest_version w gh_version gh_token false
         = (t, Raise (ValueError MajorBumpNotAllowed)).
Proof. exact (major_bump_flag_effect w gh_version gh_token). Qed.

(** X24: a declared version outside the version grammar is rejected with
    the pattern [ValueError] before any external query is made. *)
Theorem enforcer_rejects_malformed {Change : Type} (w : World Change)
    (gh_version : string) (gh_token : option string) (mba : bool) :
  (forall m, ~ matches_version_grammar gh_version m) ->
  compare_work_tree_with_latest_version w gh_version gh_token mba
  = ([], Raise (ValueError PatternMismatch)).
Proof.
  intros N. unfold compare_work_tree_with_latest_version.
  rewrite from_string_unmatched; [reflexivity|].
  destruct (version_pattern_fullmatch gh_version) as [m|] eqn:F;
    [|reflexivity].
  apply fullmatch_sound in F. now contradiction (N m).
Qed.

Lemma enforcer_rejects_malformed_witness :
  compare_work_tree_with_latest_version world_major "202501.0.0" None true
  = ([], Raise (ValueError PatternMismatch)).
Proof.
  apply (enforcer_rejects_malformed world_major "202501.0.0" None true).
  intros m G. apply fullmatch_complete in G. discriminate G.
Defined.

(** X25: a latest release that is a release candidate stops the check
    right after the registry query, with the candidate [ValueError]. *)
Theorem enforcer_rejects_candidate_latest {Change : Type} (w : World Change)
    (gh_version : string) (gh_token : option string) (mba : bool)
    (cur : Version) (tag : string) :
  from_string gh_version true = Ok cur ->
  latest_release_tag w gh_token = Ok tag ->
  parses_as_candidate tag ->
  compare_work_tree_with_latest_version w gh_version gh_token mba
  = ([GithubLatestRelease], Raise (ValueError UnexpectedCandidate)).
Proof.
  intros P L (v & T & C).
  unfold compare_work_tree_with_latest_version, get_latest_version, query.
  rewrite P, bind_lift_ok, L, bind_ok.
  destruct (from_string_modes tag v) as [_ H].
  rewrite (H T C). reflexivity.
Qed.

Lemma enforcer_rejects_candidate_latest_witness :
  compare_work_tree_with_latest_version
    (example_world "v202401.2.0-rc1" ["v202401.2.0-rc1"; "v202401.1.1"] [])
    "v202401.2.0-rc1" None true
  = ([GithubLatestRelease], Raise (ValueError UnexpectedCandidate)).
Proof.
  apply (enforcer_rejects_candidate_latest
           (example_world "v202401.2.0-rc1"
              ["v202401.2.0-rc1"; "v202401.1.1"] [])
           "v202401.2.0-rc1" None true
           (rc 202401 2 0 1) "v202401.2.0-rc1" eq_refl eq_refl).
  exists (rc 202401 2 0 1). now split.
Defined.

(** X26: the command line wrapper makes the queries of the check and
    exits with status 0 when the check passes and 1 when it raises,
    whatever the exception; allowing major bumps never raises the exit
    status. *)
Theorem cli_exit_status {Change : Type} (w : World Change)
    (gh_version : string) (gh_token : option string) (mba : bool) :
  fst (compare_work_tree_with_latest_version_cli w gh_version gh_token mba)
  = trace (compare_work_tree_with_latest_version w gh_version gh_token mba)
  /\ snd (compare_work_tree_with_latest_version_cli w gh_version gh_token mba)
     = match outcome (compare_work_tree_with_latest_version w gh_version
                        gh_token mba) with
       | Ok _ => 0
       | Raise _ => 1
       end
  /\ snd (compare_work_tree_with_latest_version_cli w gh_version gh_token true)
     <= snd (compare_work_tree_with_latest_version_cli w gh_version gh_token
               false).
Proof.
  unfold compare_work_tree_with_latest_version_cli, trace, outcome.
  split; [|split].
  - now destruct (compare_work_tree_with_latest_version w gh_version
                    gh_token mba) as [t [[]|e]].
  - now destruct (compare_work_tree_with_latest_version w gh_version
                    gh_token mba) as [t [[]|e]].
  - destruct (major_bump_flag_effect w gh_version gh_token)
      as [E|(t & E1 & E0)].
    + rewrite E. lia.
    + rewrite E1, E0. cbn. lia.
Qed.
